(** * Travel Planner API: a shallow embedding of [main.py]

    The handlers of [main.py] are embedded as Rocq functions.  Python [str]
    values are sequences of Unicode code points, Python [int] values are
    unbounded integers, the document store is passed explicitly, and the
    values the handlers draw from the outside world (random tokens, the
    clock, identifiers assigned by the store) are explicit arguments.  An
    instant is a number of microseconds; the store keeps whole
    milliseconds.  An exception that is no [HTTPException] is modelled by the
    status 500 the framework answers. *)

From Stdlib Require Import List ZArith NArith Lia Bool String Ascii.
From Stdlib Require Import Permutation Sorted DecimalString DecimalPos DecimalZ FinFun.
Import ListNotations.

Local Open Scope Z_scope.

(** ** Python strings *)

Module PyStr.

(** A character is a Unicode code point; a [str] is a sequence of them, so
    that slicing and length count code points as Python does. *)
Definition char := N.
Definition str := list char.

(** An ASCII literal of the source, as a [str]. *)
Definition lit (s : string) : str :=
  map N_of_ascii (list_ascii_of_string s).

Fixpoint eqb (a b : str) : bool :=
  match a, b with
  | [], [] => true
  | x :: a', y :: b' => N.eqb x y && eqb a' b'
  | _, _ => false
  end.

(** [len(s)]. *)
Definition len (s : str) : Z := Z.of_nat (List.length s).

(** [s[:n]] for a literal [n >= 0]. *)
Definition slice_to (n : nat) (s : str) : str := firstn n s.

(** Truthiness of a [str]: only the empty string is falsy. *)
Definition truthy (s : str) : bool :=
  match s with [] => false | _ :: _ => true end.

(** [x or d] for [x : Optional[str]]: [None] and [""] are falsy. *)
Definition or_else (x : option str) (d : str) : str :=
  match x with
  | Some s => if truthy s then s else d
  | None => d
  end.

(** [str(n)] and [f"{n}"] for an [int]: decimal digits, [-] when negative. *)
Definition of_int (n : Z) : str := lit (NilZero.string_of_int (Z.to_int n)).

(** [str.isspace] on one code point: the white-space table of CPython
    ([_PyUnicode_IsWhitespace]). *)
Definition isspace (c : char) : bool :=
  (((9 <=? c) && (c <=? 13)) || ((28 <=? c) && (c <=? 32))
   || (c =? 133) || (c =? 160) || (c =? 5760)
   || ((8192 <=? c) && (c <=? 8202))
   || (c =? 8232) || (c =? 8233) || (c =? 8239) || (c =? 8287)
   || (c =? 12288))%N.

Fixpoint lstrip (s : str) : str :=
  match s with
  | [] => []
  | c :: s' => if isspace c then lstrip s' else s
  end.

Definition rstrip (s : str) : str := rev (lstrip (rev s)).

(** [s.strip()]. *)
Definition strip (s : str) : str := rstrip (lstrip s).

(** [s.startswith(p)]. *)
Fixpoint startswith (p s : str) : bool :=
  match p, s with
  | [], _ => true
  | x :: p', y :: s' => N.eqb x y && startswith p' s'
  | _ :: _, [] => false
  end.

(** [s.replace(old, "")] for a non-empty [old]: the occurrences of [old]
    are found from left to right, without overlap, and removed.  [skip]
    counts the characters of the current occurrence still to be dropped. *)
Fixpoint remove_from (old : str) (skip : nat) (s : str) : str :=
  match s with
  | [] => []
  | c :: s' =>
      match skip with
      | S k => remove_from old k s'
      | O =>
          if startswith old s
          then remove_from old (List.length old - 1) s'
          else c :: remove_from old O s'
      end
  end.

Definition remove_all (old s : str) : str := remove_from old O s.

(** [str.lower].  On a string of Basic Latin characters it maps [A-Z] to
    [a-z] and leaves the rest; on any other string it follows the case
    tables of the Python runtime, which are left open as [unicode_lower]. *)
Definition is_ascii (c : char) : bool := (c <? 128)%N.

Definition ascii_lower_char (c : char) : char :=
  (if (65 <=? c) && (c <=? 90) then c + 32 else c)%N.

Definition ascii_lower (s : str) : str := map ascii_lower_char s.

(** [s.encode()] (UTF-8) raises [UnicodeEncodeError] exactly when [s] holds
    a surrogate code point, U+D800 to U+DFFF. *)
Definition is_surrogate (c : char) : bool := ((55296 <=? c) && (c <=? 57343))%N.

Definition encodable (s : str) : bool :=
  forallb (fun c => negb (is_surrogate c)) s.

Section Lower.
Variable unicode_lower : str -> str.

Definition lower (s : str) : str :=
  if forallb is_ascii s then ascii_lower s else unicode_lower s.
End Lower.

End PyStr.

Import PyStr.
Arguments lit _%_string.

(** Equality up to case, as the specification words the match of a budget
    with a key: the same characters, a letter [A-Z] counting as the letter
    [a-z] it capitalises.  Kept for comparison with the lookup on
    [lower]. *)
Definition is_upper (c : char) : bool := ((65 <=? c) && (c <=? 90))%N.

Definition same_letter (x y : char) : bool :=
  ((x =? y) || (is_upper x && (y =? x + 32)) || (is_upper y && (x =? y + 32)))%N.

Fixpoint eq_ignore_case (a b : str) : bool :=
  match a, b with
  | [], [] => true
  | x :: a', y :: b' => same_letter x y && eq_ignore_case a' b'
  | _, _ => false
  end.


(** ** Dictionaries with string keys, in insertion order *)

Definition dict (V : Type) := list (str * V).

(** [d.get(k, default)]. *)
Fixpoint dict_get {V : Type} (d : dict V) (k : str) (default : V) : V :=
  match d with
  | [] => default
  | (k', v) :: d' => if PyStr.eqb k' k then v else dict_get d' k default
  end.

(** [range(lo, hi)]. *)
Definition range (lo hi : Z) : list Z :=
  map (fun k => lo + Z.of_nat k) (seq 0 (Z.to_nat (hi - lo))).

(** ** The itinerary generator *)

Record DayPlan := mkDayPlan {
  day : Z;
  theme : str;
  morning : str;
  afternoon : str;
  evening : str
}.

Definition shoestring_hints : list str :=
  [lit "street food"; lit "free walking tours"; lit "public transit"].
Definition standard_hints : list str :=
  [lit "local bistros"; lit "top sights"; lit "rideshare"].
Definition luxury_hints : list str :=
  [lit "fine dining"; lit "private tours"; lit "chauffeur"].

Definition budget_hint : dict (list str) :=
  [ (lit "shoestring", shoestring_hints);
    (lit "standard", standard_hints);
    (lit "luxury", luxury_hints) ].

(** [hints[i]]; every value of [budget_hint] has three entries, so the index
    is never out of range (lemma [hints_length]). *)
Definition item (hints : list str) (i : nat) : str := nth i hints [].

(** U+2022 BULLET and U+2011 NON-BREAKING HYPHEN of the templates. *)
Definition bullet : str := [8226%N].
Definition nb_hyphen : str := [8209%N].

Section Generator.

(** The case tables of the Python runtime outside Basic Latin. *)
Variable unicode_lower : str -> str.
Local Abbreviation lower := (PyStr.lower unicode_lower).

(** [budget_hint.get((budget or "standard").lower(), budget_hint["standard"])] *)
Definition resolve_hints (budget : option str) : list str :=
  dict_get budget_hint
    (lower (or_else budget (lit "standard")))
    (dict_get budget_hint (lit "standard") []).

Definition day_plan (prompt : str) (destination : option str)
           (hints : list str) (d : Z) : DayPlan :=
  {| day := d;
     theme := lit "Day " ++ of_int d ++ lit " " ++ bullet ++ lit " "
              ++ or_else destination (lit "Explorer");
     morning := lit "Start with " ++ item hints 0
              ++ lit " near the main square. Stroll through a scenic district inspired by: "
              ++ slice_to 80 prompt;
     afternoon := lit "Visit two must" ++ nb_hyphen
              ++ lit "see spots. Consider a museum or viewpoint. Use "
              ++ item hints 1 ++ lit ".";
     evening := lit "Dinner with a view, then a relaxing walk. End with "
              ++ item hints 2 ++ lit " back to stay." |}.

Definition _generate_itinerary (prompt : str) (days : Z)
           (destination budget : option str) : list DayPlan :=
  let hints := resolve_hints budget in
  map (day_plan prompt destination hints) (range 1 (days + 1)).

End Generator.

(** ** The document store *)

(** An [ObjectId] is modelled by its 24-digit hexadecimal rendering, so that
    [str(oid)] is the identity. *)
Definition ObjectId := str.
Definition oid_str (o : ObjectId) : str := o.

(** A UTC instant, in microseconds since the epoch: the resolution of
    [datetime.now(timezone.utc)]. *)
Definition datetime := Z.

(** The store keeps an instant as a whole number of milliseconds (and hands
    it back without its time zone): the microseconds below the millisecond
    are dropped when a document is written. *)
Definition stored_instant (now : datetime) : datetime := 1000 * (now / 1000).

(** A document of the [user] collection.  The handlers read [name], [email],
    [salt] and [password_hash] with [dict.get], so these may be missing. *)
Module User.
Record t := mk {
  _id : ObjectId;
  name : option str;
  email : option str;
  password_hash : option str;
  salt : option str;
  tokens : list str;
  created_at : datetime;
  updated_at : datetime
}.
End User.

(** A document of the [trip] collection, as [create_trip] builds it. *)
Module Trip.
Record t := mk {
  _id : ObjectId;
  user_id : str;
  title : str;
  prompt : str;
  days : Z;
  itinerary : list DayPlan;
  destination : option str;
  budget : option str;
  created_at : datetime;
  updated_at : datetime
}.
End Trip.

(** The document the store keeps of a trip handed to [insert_one]. *)
Definition store_trip (t : Trip.t) : Trip.t :=
  Trip.mk (Trip._id t) (Trip.user_id t) (Trip.title t) (Trip.prompt t)
    (Trip.days t) (Trip.itinerary t) (Trip.destination t) (Trip.budget t)
    (stored_instant (Trip.created_at t)) (stored_instant (Trip.updated_at t)).

(** The two collections, each in insertion (natural) order. *)
Record Database := mkDatabase {
  user : list User.t;
  trip : list Trip.t
}.

(** [x == y] for [x : Optional[str]] and [y : str]. *)
Definition opt_is (x : option str) (y : str) : bool :=
  match x with Some s => PyStr.eqb s y | None => false end.

(** [x.get(key, default)] on a field that may be missing. *)
Definition get_or (x : option str) (default : str) : str :=
  match x with Some s => s | None => default end.

(** [collection.find_one(query)]: the first matching document. *)
Definition find_one {A : Type} (query : A -> bool) (coll : list A) : option A :=
  find query coll.

(** [collection.update_one(query, update)]: the first matching document is
    updated in place. *)
Fixpoint update_one {A : Type} (query : A -> bool) (update : A -> A)
         (coll : list A) : list A :=
  match coll with
  | [] => []
  | x :: coll' =>
      if query x then update x :: coll' else x :: update_one query update coll'
  end.

(** [cursor.sort("created_at", -1)]: descending by [created_at].  The store
    leaves the order of equal keys open; the model keeps them in natural
    order. *)
Fixpoint insert_desc (t : Trip.t) (l : list Trip.t) : list Trip.t :=
  match l with
  | [] => [t]
  | x :: l' =>
      if Trip.created_at x <=? Trip.created_at t
      then t :: l
      else x :: insert_desc t l'
  end.

Fixpoint sort_created_at_desc (l : list Trip.t) : list Trip.t :=
  match l with
  | [] => []
  | t :: l' => insert_desc t (sort_created_at_desc l')
  end.

(** Most recent first. *)
Definition newer_first (a b : Trip.t) : Prop :=
  Trip.created_at a >= Trip.created_at b.

(** ** Requests, responses and errors *)

Record HTTPException := mkHTTPException {
  status_code : Z;
  detail : str
}.

Record RegisterRequest := mkRegisterRequest {
  reg_name : str;
  reg_email : str;
  reg_password : str
}.

Record LoginRequest := mkLoginRequest {
  login_email : str;
  login_password : str
}.

Record AuthResponse := mkAuthResponse {
  auth_token : str;
  auth_name : str;
  auth_email : str
}.

Record TripCreateRequest := mkTripCreateRequest {
  req_prompt : str;
  req_days : Z;
  req_destination : option str;
  req_budget : option str;
  req_title : option str
}.

(** The JSON body of [POST /api/trips] before validation: every member may
    be missing ([null] counts as missing for the optional ones). *)
Record TripCreateBody := mkTripCreateBody {
  body_prompt : option str;
  body_days : option Z;
  body_destination : option str;
  body_budget : option str;
  body_title : option str
}.

(** Validation of the body against [TripCreateRequest]: [prompt] is
    required, [days] is [Field(3, ge=1, le=30)]. *)
Definition validate_days (d : option Z) : option Z :=
  match d with
  | None => Some 3
  | Some n => if (1 <=? n) && (n <=? 30) then Some n else None
  end.

Definition validate_TripCreateRequest (b : TripCreateBody)
  : option TripCreateRequest :=
  match body_prompt b, validate_days (body_days b) with
  | Some p, Some d =>
      Some (mkTripCreateRequest p d (body_destination b) (body_budget b)
              (body_title b))
  | _, _ => None
  end.

(** What a route answers: the framework's 422 when the body does not
    validate (the handler is then not called), else the handler's outcome
    -- an [HTTPException] raised or a value returned. *)
Inductive Response (A : Type) : Type :=
| Unprocessable : Response A
| Handled : HTTPException + A -> Response A.
Arguments Unprocessable {A}.
Arguments Handled {A} _.

Definition not_configured : HTTPException :=
  mkHTTPException 500 (lit "Database not configured").
Definition unauthorized : HTTPException :=
  mkHTTPException 401 (lit "Unauthorized").
Definition invalid_credentials : HTTPException :=
  mkHTTPException 401 (lit "Invalid credentials").
Definition already_registered : HTTPException :=
  mkHTTPException 400 (lit "Email already registered").

(** What the framework answers when a handler raises an exception that is
    no [HTTPException]. *)
Definition internal_server_error : HTTPException :=
  mkHTTPException 500 (lit "Internal Server Error").

(** ** Utility functions and handlers *)

(** [(authorization or "").replace("Bearer ", "").strip()], the expression
    [me], [create_trip] and [list_trips] share. *)
Definition bearer_token (authorization : option str) : str :=
  strip (remove_all (lit "Bearer ") (or_else authorization (lit ""))).

(** The token as the specification words it: only a leading ["Bearer "] is
    removed, then the surrounding white space.  Kept for comparison with
    [bearer_token]. *)
Definition spec_strip_bearer_prefix (s : str) : str :=
  if startswith (lit "Bearer ") s then skipn 7 s else s.

Definition spec_bearer_token (authorization : option str) : str :=
  strip (spec_strip_bearer_prefix (or_else authorization (lit ""))).

(** [old in s]: [old] occurs in [s]. *)
Definition occurs (old s : str) : Prop := exists a b, s = a ++ old ++ b.

Definition _get_user_by_email (db : option Database) (email : str)
  : option User.t :=
  match db with
  | Some d => find_one (fun u => opt_is (User.email u) email) (user d)
  | None => None
  end.

(** [{"tokens": token}] matches a document whose [tokens] array holds
    [token]. *)
Definition _get_user_by_token (db : option Database) (token : str)
  : option User.t :=
  if negb (truthy token) then None
  else match db with
       | Some d =>
           find_one (fun u => existsb (PyStr.eqb token) (User.tokens u)) (user d)
       | None => None
       end.

Section Handlers.

(** The case tables of the Python runtime outside Basic Latin, and
    [hashlib.sha256(b).hexdigest()] as a function of the string [b] is the
    encoding of. *)
Variable unicode_lower : str -> str.
Variable sha256_hexdigest : str -> str.

(** [_hash_password]; [None] when [(salt + password).encode()] raises. *)
Definition _hash_password (password salt : str) : option str :=
  if encodable (salt ++ password)
  then Some (sha256_hexdigest (salt ++ password))
  else None.

(** [register]; [salt] and [token] are the two draws of
    [secrets.token_hex], [oid] the identifier the store assigns, [now1] and
    [now2] the two readings of the clock. *)
Definition register (req : RegisterRequest) (db : option Database)
           (salt token : str) (oid : ObjectId) (now1 now2 : datetime)
  : (HTTPException + AuthResponse) * option Database :=
  match db with
  | None => (inl not_configured, db)
  | Some d =>
      match _get_user_by_email db (reg_email req) with
      | Some _ => (inl already_registered, db)
      | None =>
          match _hash_password (reg_password req) salt with
          | None => (inl internal_server_error, db)
          | Some password_hash =>
              let user_doc :=
                User.mk oid (Some (reg_name req)) (Some (reg_email req))
                  (Some password_hash) (Some salt) [token]
                  (stored_instant now1) (stored_instant now2) in
              (inr (mkAuthResponse token (reg_name req) (reg_email req)),
               Some (mkDatabase (user d ++ [user_doc]) (trip d)))
          end
      end
  end.

(** [login]; [token] is the draw of [secrets.token_hex], [now] the clock.
    The digest is computed, and may raise, before it is compared. *)
Definition login (req : LoginRequest) (db : option Database)
           (token : str) (now : datetime)
  : (HTTPException + AuthResponse) * option Database :=
  match db with
  | None => (inl not_configured, db)
  | Some d =>
      match _get_user_by_email db (login_email req) with
      | None => (inl invalid_credentials, db)
      | Some u =>
          match _hash_password (login_password req)
                  (get_or (User.salt u) (lit "")) with
          | None => (inl internal_server_error, db)
          | Some expected =>
              if negb (opt_is (User.password_hash u) expected)
              then (inl invalid_credentials, db)
              else
                let push (x : User.t) :=
                  User.mk (User._id x) (User.name x) (User.email x)
                    (User.password_hash x) (User.salt x)
                    (User.tokens x ++ [token]) (User.created_at x)
                    (stored_instant now) in
                let users' :=
                  update_one (fun x => PyStr.eqb (User._id x) (User._id u)) push
                    (user d) in
                (inr (mkAuthResponse token (get_or (User.name u) (lit ""))
                        (get_or (User.email u) (lit ""))),
                 Some (mkDatabase users' (trip d)))
          end
      end
  end.

(** [me]: the handler of [GET /api/me]. *)
Definition me (authorization : option str) (db : option Database)
  : HTTPException + (option str * option str) :=
  match db with
  | None => inl not_configured
  | Some _ =>
      let token := bearer_token authorization in
      match _get_user_by_token db token with
      | None => inl unauthorized
      | Some u => inr (User.name u, User.email u)
      end
  end.

(** [create_trip]; [now1], [now2] are the two readings of the clock and
    [inserted_id] the identifier the store assigns.  The handler returns the
    document it built, with the clock readings as they were; the store keeps
    [store_trip] of it. *)
Definition create_trip (req : TripCreateRequest) (authorization : option str)
           (db : option Database) (now1 now2 : datetime)
           (inserted_id : ObjectId)
  : (HTTPException + Trip.t) * option Database :=
  match db with
  | None => (inl not_configured, db)
  | Some d =>
      let token := bearer_token authorization in
      match _get_user_by_token db token with
      | None => (inl unauthorized, db)
      | Some u =>
          let itinerary :=
            _generate_itinerary unicode_lower (req_prompt req) (req_days req)
              (req_destination req) (req_budget req) in
          let title :=
            or_else (req_title req)
              (or_else (req_destination req) (lit "Custom Trip")
               ++ lit " " ++ bullet ++ lit " " ++ of_int (req_days req)
               ++ lit " days") in
          let trip_doc :=
            Trip.mk inserted_id (oid_str (User._id u)) title (req_prompt req)
              (req_days req) itinerary (req_destination req) (req_budget req)
              now1 now2 in
          (inr trip_doc,
           Some (mkDatabase (user d) (trip d ++ [store_trip trip_doc])))
      end
  end.

(** [POST /api/trips]: the body is validated against [TripCreateRequest]
    before [create_trip] is called. *)
Definition post_api_trips (body : TripCreateBody) (authorization : option str)
           (db : option Database) (now1 now2 : datetime)
           (inserted_id : ObjectId)
  : Response Trip.t * option Database :=
  match validate_TripCreateRequest body with
  | None => (Unprocessable, db)
  | Some req =>
      let '(r, db') := create_trip req authorization db now1 now2 inserted_id in
      (Handled r, db')
  end.

(** [list_trips]: the handler of [GET /api/trips]. *)
Definition list_trips (authorization : option str) (db : option Database)
  : HTTPException + list Trip.t :=
  match db with
  | None => inl not_configured
  | Some d =>
      let token := bearer_token authorization in
      match _get_user_by_token db token with
      | None => inl unauthorized
      | Some u =>
          inr (sort_created_at_desc
                 (filter (fun t => PyStr.eqb (Trip.user_id t) (oid_str (User._id u)))
                    (trip d)))
      end
  end.

End Handlers.

(** ** Tokens and diagnostics *)

(** The alphabet of [secrets.token_hex]: the digits and [a-f]. *)
Definition is_hex_digit (c : char) : bool :=
  (((48 <=? c) && (c <=? 57)) || ((97 <=? c) && (c <=? 102)))%N.

(** A value [secrets.token_hex(nbytes)] can return: [2 * nbytes] characters
    of that alphabet. *)
Definition is_token_hex (nbytes : nat) (s : str) : bool :=
  (List.length s =? 2 * nbytes)%nat && forallb is_hex_digit s.

(** The update [login] applies to one user document: [$push] of the token,
    [$set] of [updated_at] to the instant [now] as the store keeps it. *)
Definition with_token (token : str) (now : datetime) (x : User.t) : User.t :=
  User.mk (User._id x) (User.name x) (User.email x) (User.password_hash x)
    (User.salt x) (User.tokens x ++ [token]) (User.created_at x) now.

(** The answer of [test_database]. *)
Record Diagnostics := mkDiagnostics {
  diag_backend : str;
  diag_database : str;
  diag_database_url : str;
  diag_database_name : str;
  diag_connection_status : str;
  diag_collections : list str
}.

(** What [db.list_collection_names()] does on a configured store: it returns
    the names, or raises an exception [e], of which [str(e)] is kept. *)
Inductive Listing : Type :=
| Names : list str -> Listing
| Raises : str -> Listing.

(** U+2705, U+274C, and U+26A0 U+FE0F, the marks of the answer. *)
Definition check_mark : str := [9989%N].
Definition cross_mark : str := [10060%N].
Definition warning_sign : str := [9888%N; 65039%N].

(** Truthiness of [os.getenv(name)]: unset and empty are falsy. *)
Definition env_truthy (v : option str) : bool :=
  match v with Some s => truthy s | None => false end.

(** [test_database]; [db] is [None] when no store is configured, else the
    outcome of listing its collections; the two other arguments are the
    values of the environment variables. *)
Definition test_database (db : option Listing)
           (DATABASE_URL DATABASE_NAME : option str) : Diagnostics :=
  let url := if env_truthy DATABASE_URL
             then check_mark ++ lit " Set" else cross_mark ++ lit " Not Set" in
  let name := if env_truthy DATABASE_NAME
              then check_mark ++ lit " Set" else cross_mark ++ lit " Not Set" in
  let backend := check_mark ++ lit " Running" in
  match db with
  | Some (Names names) =>
      mkDiagnostics backend (check_mark ++ lit " Available") url name
        (lit "Connected") (firstn 10 names)
  | Some (Raises e) =>
      (* the two assignments before the call that raised stay in place *)
      mkDiagnostics backend (warning_sign ++ lit " Error: " ++ slice_to 80 e)
        url name (lit "Connected") []
  | None =>
      mkDiagnostics backend (cross_mark ++ lit " Not Available") url name
        (lit "Not Connected") []
  end.

(** ** Sample data for concrete runs *)

Definition sample_token : str :=
  lit "0123456789abcdef0123456789abcdef0123456789abcdef".

Definition sample_user : User.t :=
  User.mk (lit "65f0c0ffee65f0c0ffee65f0") (Some (lit "Alice"))
    (Some (lit "a@x.com")) (Some (lit "5e884898da28047151d0e56f8dc62927"))
    (Some (lit "00112233445566778899aabbccddeeff")) [sample_token] 1000 1000.

Definition sample_db : option Database :=
  Some (mkDatabase [sample_user] []).

(** [sample_token] with ["Bearer "] in its middle. *)
Definition split_header : option str :=
  Some (lit "0123456789abcdefBearer 0123456789abcdef0123456789abcdef").

Definition sample_authorization : option str :=
  Some (lit "Bearer " ++ sample_token).

Definition sample_request : TripCreateRequest :=
  mkTripCreateRequest (lit "See the sights") 3 (Some (lit "Paris"))
    (Some (lit "LUXURY")) None.

(** The same request with no budget, an empty destination and an empty
    title. *)
Definition bare_request : TripCreateRequest :=
  mkTripCreateRequest (lit "See the sights") 3 (Some (lit "")) None
    (Some (lit "")).

Definition sample_oid : ObjectId := lit "65f0c0ffee65f0c0ffee65f1".

(** A prompt of 90 characters. *)
Definition long_prompt : str :=
  lit "Ten days of slow travel through hill towns, markets, vineyards and quiet coastal villages.".

(** The trip [create_trip] builds from [sample_request] at instants 2000 and
    2001. *)
Definition sample_trip : Trip.t :=
  Trip.mk sample_oid (User._id sample_user)
    (lit "Paris " ++ bullet ++ lit " 3 days") (lit "See the sights") 3
    (_generate_itinerary (fun s => s) (lit "See the sights") 3
       (Some (lit "Paris")) (Some (lit "LUXURY")))
    (Some (lit "Paris")) (Some (lit "LUXURY")) 2000 2001.

(** A second user, and a store with trips of both. *)
Definition other_token : str :=
  lit "fedcba9876543210fedcba9876543210fedcba9876543210".

Definition other_user : User.t :=
  User.mk (lit "65f0c0ffee65f0c0ffee65ff") (Some (lit "Bob"))
    (Some (lit "b@x.com")) (Some (lit "8d969eef6ecad3c29a3a629280e686cf"))
    (Some (lit "ffeeddccbbaa99887766554433221100")) [other_token] 2000 2000.

Definition trip_of (owner : User.t) (oid : ObjectId) (at_ : datetime) : Trip.t :=
  Trip.mk oid (User._id owner) (lit "Custom Trip") (lit "Anywhere") 1
    (_generate_itinerary (fun s => s) (lit "Anywhere") 1 None None)
    None None at_ at_.

Definition T1 : Trip.t := trip_of sample_user (lit "000000000000000000000001") 1000.
Definition T2 : Trip.t := trip_of other_user (lit "000000000000000000000002") 2000.
Definition T3 : Trip.t := trip_of sample_user (lit "000000000000000000000003") 3000.
Definition T4 : Trip.t := trip_of sample_user (lit "000000000000000000000004") 4000.

Definition two_user_db : Database :=
  mkDatabase [sample_user; other_user] [T1; T2; T3; T4].

(** A registration on top of [sample_db], with the identity standing in for
    the digest, and the store it leaves. *)
Definition carol_request : RegisterRequest :=
  mkRegisterRequest (lit "Carol") (lit "c@x.com") (lit "pw123").

Definition carol_salt : str := lit "89abcdef0123456789abcdef01234567".

Definition carol_token : str :=
  lit "00112233445566778899aabbccddeeff0011223344556677".

Definition carol_oid : ObjectId := lit "65f0c0ffee65f0c0ffee65aa".

Definition carol_user : User.t :=
  User.mk carol_oid (Some (lit "Carol")) (Some (lit "c@x.com"))
    (Some (carol_salt ++ lit "pw123")) (Some carol_salt) [carol_token]
    3000 3000.

Definition carol_db : Database := mkDatabase [sample_user; carol_user] [].

(** A later login of that user. *)
Definition carol_login : LoginRequest :=
  mkLoginRequest (lit "c@x.com") (lit "pw123").

Definition login_token : str :=
  lit "ffeeddccbbaa99887766554433221100ffeeddccbbaa9988".

(** The trip [create_trip] returns for [sample_request] at the instants 5123
    and 5999, and the store of two users after that call. *)
Definition late_trip : Trip.t :=
  Trip.mk sample_oid (User._id sample_user)
    (lit "Paris " ++ bullet ++ lit " 3 days") (lit "See the sights") 3
    (_generate_itinerary (fun s => s) (lit "See the sights") 3
       (Some (lit "Paris")) (Some (lit "LUXURY")))
    (Some (lit "Paris")) (Some (lit "LUXURY")) 5123 5999.

Definition two_user_db_after : option Database :=
  Some (mkDatabase [sample_user; other_user]
          [T1; T2; T3; T4; store_trip late_trip]).

(** A store in which two users share an email, as two registrations racing
    each other leave it; [sha] is the digest. *)
Definition twin_db (sha : str -> str) : option Database :=
  Some (mkDatabase
          [User.mk (lit "65f0c0ffee65f0c0ffee6501") (Some (lit "Alice"))
             (Some (lit "a@x.com")) (Some (sha (lit "aa" ++ lit "pw1")))
             (Some (lit "aa")) [sample_token] 1000 1000;
           User.mk (lit "65f0c0ffee65f0c0ffee6502") (Some (lit "Alice"))
             (Some (lit "a@x.com")) (Some (sha (lit "bb" ++ lit "pw2")))
             (Some (lit "bb")) [other_token] 1000 1000]
          []).

(** * Properties *)

(** ** Strings, dictionaries and ranges *)

Lemma str_eqb_eq (a b : str) : PyStr.eqb a b = true <-> a = b.
Proof.
  revert b; induction a as [|x a IH]; intros [|y b]; simpl;
    try (split; [discriminate | congruence]); try tauto.
  rewrite andb_true_iff, N.eqb_eq, IH.
  split; [intros [-> ->]; reflexivity | intros H; inversion H; auto].
Qed.

Lemma str_eqb_refl (a : str) : PyStr.eqb a a = true.
Proof. apply str_eqb_eq; reflexivity. Qed.

Lemma str_eqb_neq (a b : str) : PyStr.eqb a b = false <-> a <> b.
Proof.
  rewrite <- str_eqb_eq. destruct (PyStr.eqb a b); split; congruence.
Qed.

Lemma PyStr_eqb_sym (a b : str) : PyStr.eqb a b = PyStr.eqb b a.
Proof.
  destruct (PyStr.eqb b a) eqn:E.
  - apply str_eqb_eq in E. subst. apply str_eqb_refl.
  - apply str_eqb_neq. apply str_eqb_neq in E. congruence.
Qed.

Lemma or_else_none (d : str) : or_else None d = d.
Proof. reflexivity. Qed.

Lemma or_else_empty (d : str) : or_else (Some []) d = d.
Proof. reflexivity. Qed.

Lemma or_else_nonempty (s d : str) : s <> [] -> or_else (Some s) d = s.
Proof. destruct s; [congruence | reflexivity]. Qed.

Lemma range_length (lo hi : Z) : List.length (range lo hi) = Z.to_nat (hi - lo).
Proof. unfold range. now rewrite length_map, length_seq. Qed.

Lemma range_nth_error (lo hi : Z) (i : nat) :
  (i < Z.to_nat (hi - lo))%nat ->
  nth_error (range lo hi) i = Some (lo + Z.of_nat i).
Proof.
  intros Hi. unfold range.
  rewrite nth_error_map, nth_error_seq.
  destruct (Nat.ltb_spec i (Z.to_nat (hi - lo))); [reflexivity | lia].
Qed.

Lemma range_In (lo hi d : Z) : In d (range lo hi) <-> lo <= d < hi.
Proof.
  unfold range. rewrite in_map_iff. split.
  - intros (k & <- & Hk). apply in_seq in Hk. lia.
  - intros H. exists (Z.to_nat (d - lo)). split; [lia |].
    apply in_seq. lia.
Qed.

(** ** The itinerary generator *)

Section GeneratorFacts.

Variable unicode_lower : str -> str.
Local Abbreviation lower := (PyStr.lower unicode_lower).
Local Abbreviation generate := (_generate_itinerary unicode_lower).
Local Abbreviation hints_of := (resolve_hints unicode_lower).

(** The lookup of [resolve_hints], key by key. *)
Lemma resolve_hints_cases (budget : option str) :
  hints_of budget =
  let k := lower (or_else budget (lit "standard")) in
  if PyStr.eqb (lit "shoestring") k then shoestring_hints
  else if PyStr.eqb (lit "luxury") k then luxury_hints
  else standard_hints.
Proof.
  unfold resolve_hints, budget_hint. cbv zeta.
  set (k := PyStr.lower _ _). cbn [dict_get].
  destruct (PyStr.eqb (lit "shoestring") k); [reflexivity |].
  rewrite str_eqb_refl.
  destruct (PyStr.eqb (lit "standard") k) eqn:Es;
    destruct (PyStr.eqb (lit "luxury") k) eqn:El; try reflexivity.
  apply str_eqb_eq in Es, El. rewrite <- El in Es. discriminate Es.
Qed.

Lemma hints_length (budget : option str) : List.length (hints_of budget) = 3%nat.
Proof.
  rewrite resolve_hints_cases. cbv zeta.
  repeat match goal with |- context [if ?b then _ else _] => destruct b end;
    reflexivity.
Qed.

Lemma lower_ascii (s : str) : forallb is_ascii s = true -> lower s = ascii_lower s.
Proof. unfold PyStr.lower. now intros ->. Qed.

Lemma generate_length (prompt : str) (days : Z) (destination budget : option str) :
  List.length (generate prompt days destination budget) = Z.to_nat days.
Proof.
  unfold _generate_itinerary. cbv zeta.
  rewrite length_map, range_length. f_equal. lia.
Qed.

Lemma generate_nth_error (prompt : str) (days : Z) (destination budget : option str)
      (i : nat) :
  (i < Z.to_nat days)%nat ->
  nth_error (generate prompt days destination budget) i =
  Some (day_plan prompt destination (hints_of budget) (1 + Z.of_nat i)).
Proof.
  intros Hi. unfold _generate_itinerary. cbv zeta.
  rewrite nth_error_map, range_nth_error by lia. reflexivity.
Qed.

Lemma generate_In (prompt : str) (days : Z) (destination budget : option str)
      (p : DayPlan) :
  In p (generate prompt days destination budget) <->
  exists d, 1 <= d <= days /\ p = day_plan prompt destination (hints_of budget) d.
Proof.
  unfold _generate_itinerary. cbv zeta. rewrite in_map_iff. split.
  - intros (d & <- & Hd). apply range_In in Hd. exists d. split; [lia | reflexivity].
  - intros (d & Hd & ->). exists d. split; [reflexivity | apply range_In; lia].
Qed.

End GeneratorFacts.


Lemma ascii_lower_char_idem (c : char) :
  ascii_lower_char (ascii_lower_char c) = ascii_lower_char c.
Proof.
  unfold ascii_lower_char.
  destruct ((65 <=? c)%N && (c <=? 90)%N) eqn:E; [|now rewrite E].
  apply andb_true_iff in E. destruct E as [E1 E2].
  apply N.leb_le in E1, E2.
  destruct (N.leb_spec (c + 32) 90); [lia |].
  now rewrite andb_false_r.
Qed.

Lemma ascii_lower_is_ascii (s : str) :
  forallb is_ascii s = true -> forallb is_ascii (ascii_lower s) = true.
Proof.
  induction s as [|c s IH]; simpl; [reflexivity |].
  rewrite !andb_true_iff. intros [Hc Hs]. split; [|auto].
  unfold is_ascii, ascii_lower_char in *. apply N.ltb_lt in Hc. apply N.ltb_lt.
  destruct ((65 <=? c)%N && (c <=? 90)%N) eqn:E; [|exact Hc].
  apply andb_true_iff in E. destruct E as [_ E2]. apply N.leb_le in E2. lia.
Qed.

Lemma lower_ascii_lower (ul : str -> str) (s : str) :
  forallb is_ascii s = true -> lower ul (ascii_lower s) = lower ul s.
Proof.
  intros H. unfold lower. rewrite H, (ascii_lower_is_ascii s H).
  unfold ascii_lower. rewrite map_map. apply map_ext. apply ascii_lower_char_idem.
Qed.

(** C1: for [days >= 1] the generator returns exactly [days] day plans, and
    the plan at 0-based position [i] carries the day number [i + 1]. *)
Theorem generate_itinerary_day_numbers
        (ul : str -> str) (prompt : str) (days : Z)
        (destination budget : option str) :
  1 <= days ->
  let itinerary := _generate_itinerary ul prompt days destination budget in
  Z.of_nat (List.length itinerary) = days /\
  forall i : Z, 0 <= i < days ->
    exists p, nth_error itinerary (Z.to_nat i) = Some p /\ day p = i + 1.
Proof.
  intros Hd itinerary. subst itinerary. split.
  - rewrite generate_length. lia.
  - intros i Hi. rewrite generate_nth_error by lia.
    eexists; split; [reflexivity |]. unfold day_plan; cbn [day]. lia.
Qed.

Lemma generate_itinerary_day_numbers_witness :
  let itinerary :=
    _generate_itinerary (fun s => s) (lit "See the sights") 3
      (Some (lit "Paris")) (Some (lit "luxury")) in
  Z.of_nat (List.length itinerary) = 3 /\
  forall i : Z, 0 <= i < 3 ->
    exists p, nth_error itinerary (Z.to_nat i) = Some p /\ day p = i + 1.
Proof.
  apply (generate_itinerary_day_numbers (fun s => s) (lit "See the sights") 3
           (Some (lit "Paris")) (Some (lit "luxury"))).
  lia.
Defined.






(** The ASCII spellings of a key, whatever their case, select its triple. *)
Example budget_mixed_case (ul : str -> str) :
  resolve_hints ul (Some (lit "LuXuRy")) = luxury_hints
  /\ resolve_hints ul (Some (lit "SHOESTRING")) = shoestring_hints
  /\ resolve_hints ul (Some (lit "Standard")) = standard_hints
  /\ resolve_hints ul (Some (lit "first class")) = standard_hints
  /\ resolve_hints ul (Some (lit "")) = standard_hints
  /\ eq_ignore_case (lit "LuXuRy") (lit "luxury") = true
  /\ eq_ignore_case (lit "SHOESTRING") (lit "shoestring") = true
  /\ eq_ignore_case (lit "luxurious") (lit "luxury") = false.
Proof. repeat split. Qed.

(** C8: the morning text of every generated day plan is a fixed lead-in
    followed by [prompt[:80]] and nothing else; that excerpt is the first 80
    characters of a prompt of 81 characters or more, and the whole prompt
    when it has 80 characters or fewer. *)
Theorem morning_embeds_first_80_chars
        (ul : str -> str) (prompt : str) (days : Z)
        (destination budget : option str) (p : DayPlan) :
  In p (_generate_itinerary ul prompt days destination budget) ->
  morning p =
    lit "Start with " ++ item (resolve_hints ul budget) 0
    ++ lit " near the main square. Stroll through a scenic district inspired by: "
    ++ slice_to 80 prompt
  /\ (81 <= len prompt ->
      len (slice_to 80 prompt) = 80 /\
      exists rest, rest <> [] /\ prompt = slice_to 80 prompt ++ rest)
  /\ (len prompt <= 80 -> slice_to 80 prompt = prompt).
Proof.
  intros Hp. apply generate_In in Hp. destruct Hp as (d & _ & ->).
  unfold len, slice_to. split; [reflexivity | split].
  - intros Hlen. split.
    + rewrite length_firstn. lia.
    + exists (skipn 80 prompt). split.
      * intros E. apply (f_equal (@List.length char)) in E.
        rewrite length_skipn in E. simpl in E. lia.
      * symmetry. apply firstn_skipn.
  - intros Hlen. apply firstn_all2. lia.
Qed.

(** ** Bearer tokens *)

Lemma startswith_iff (p s : str) :
  startswith p s = true <-> exists r, s = p ++ r.
Proof.
  revert s; induction p as [|x p IH]; intros s; simpl.
  - split; [intros _; now exists s | reflexivity].
  - destruct s as [|y s].
    + split; [discriminate | intros (r & Hr); discriminate Hr].
    + rewrite andb_true_iff, N.eqb_eq, IH. split.
      * intros (-> & r & ->). now exists r.
      * intros (r & Hr). inversion Hr; subst. split; [reflexivity | now exists r].
Qed.

(** Dropping the rest of an occurrence character by character is dropping
    it at once. *)
Lemma remove_from_skipn (old : str) (k : nat) (s : str) :
  remove_from old k s = remove_all old (skipn k s).
Proof.
  revert k; induction s as [|c s IH]; intros k.
  - now destruct k.
  - destruct k as [|k]; [reflexivity |]. simpl. apply IH.
Qed.

(** The equation of [s.replace(old, "")]: at an occurrence of [old], skip
    it and go on behind it; elsewhere keep the character. *)
Lemma remove_all_eq (old : str) (c : char) (s : str) :
  old <> [] ->
  remove_all old (c :: s) =
  if startswith old (c :: s)
  then remove_all old (skipn (List.length old) (c :: s))
  else c :: remove_all old s.
Proof.
  intros Hold. unfold remove_all at 1. cbn [remove_from].
  destruct (startswith old (c :: s)); [|reflexivity].
  rewrite remove_from_skipn.
  destruct old as [|x old]; [congruence |].
  cbn [List.length]. rewrite Nat.sub_succ, Nat.sub_0_r. reflexivity.
Qed.

Lemma remove_all_prefix (old s : str) :
  old <> [] -> remove_all old (old ++ s) = remove_all old s.
Proof.
  intros Hold. destruct old as [|x old]; [congruence |].
  change ((x :: old) ++ s) with (x :: (old ++ s)).
  rewrite remove_all_eq by congruence.
  assert (E : startswith (x :: old) (x :: old ++ s) = true)
    by (apply startswith_iff; now exists s).
  rewrite E. f_equal.
  change (x :: old ++ s) with ((x :: old) ++ s).
  now rewrite skipn_app, skipn_all, Nat.sub_diag.
Qed.

Lemma remove_all_absent (old s : str) :
  old <> [] -> ~ occurs old s -> remove_all old s = s.
Proof.
  intros Hold. induction s as [|c s IH]; intros Hno; [reflexivity |].
  rewrite remove_all_eq by assumption.
  destruct (startswith old (c :: s)) eqn:E.
  - exfalso. apply Hno. apply startswith_iff in E. destruct E as (r & ->).
    now exists [], r.
  - f_equal. apply IH. intros (a & b & ->). apply Hno. now exists (c :: a), b.
Qed.

Lemma or_else_empty_default (s : str) : or_else (Some s) (lit "") = s.
Proof. now destruct s. Qed.

Lemma get_user_by_token_none (db : option Database) (token : str) :
  _get_user_by_token db token = None <->
  token = [] \/ db = None \/
  exists d, db = Some d /\
            forall u, In u (user d) -> ~ In token (User.tokens u).
Proof.
  unfold _get_user_by_token, find_one.
  destruct token as [|c token]; cbn [truthy negb]; [tauto |].
  destruct db as [d|]; [|tauto]. split.
  - intros Hnone. right; right. exists d. split; [reflexivity |].
    intros u Hu Hin.
    pose proof (find_none _ _ Hnone u Hu) as Hf. cbv beta in Hf.
    assert (existsb (PyStr.eqb (c :: token)) (User.tokens u) = true) as Ht.
    { apply existsb_exists. exists (c :: token). split; [exact Hin | apply str_eqb_refl]. }
    congruence.
  - intros [H | [H | (d' & Hd & Hall)]]; try discriminate.
    injection Hd as <-.
    destruct (find _ (user d)) as [u|] eqn:Hf; [|reflexivity].
    apply find_some in Hf. destruct Hf as [Hu Ht].
    apply existsb_exists in Ht. destruct Ht as (t & Hin & Heq).
    apply str_eqb_eq in Heq. subst t. exfalso. exact (Hall u Hu Hin).
Qed.

Lemma get_user_by_token_some (db : option Database) (token : str) (u : User.t) :
  _get_user_by_token db token = Some u ->
  token <> [] /\
  exists d, db = Some d /\ In u (user d) /\ In token (User.tokens u).
Proof.
  unfold _get_user_by_token, find_one.
  destruct token as [|c token]; cbn [truthy negb]; [discriminate |].
  destruct db as [d|]; [|discriminate]. intros Hf.
  apply find_some in Hf. destruct Hf as [Hu Ht].
  apply existsb_exists in Ht. destruct Ht as (t & Hin & Heq).
  apply str_eqb_eq in Heq. subst t.
  split; [discriminate |]. exists d. auto.
Qed.

(** C2, as stated, fails: a header that carries ["Bearer "] in the middle of
    the token resolves to the user owning the token with that occurrence
    removed, although the header with only a leading prefix and white space
    stripped is the token of no user. *)
Lemma bearer_inside_token_counterexample :
  _get_user_by_token sample_db (bearer_token split_header) = Some sample_user
  /\ spec_bearer_token split_header
     = lit "0123456789abcdefBearer 0123456789abcdef0123456789abcdef"
  /\ _get_user_by_token sample_db (spec_bearer_token split_header) = None.
Proof. repeat split. Qed.

(** C2, amended: the token is the header with every occurrence of
    ["Bearer "] removed (left to right, not only a leading one) and the
    surrounding white space stripped; a header that holds ["Bearer "] at most
    as its prefix thus loses exactly that prefix.  The exact token is then
    looked up: no user is returned when it is empty (an absent or empty
    header among the cases), when no store is configured, or when it is in no
    user's token set; a user returned holds the token. *)
Theorem token_resolution_removes_every_bearer
        (authorization : option str) (db : option Database) :
  let header := or_else authorization (lit "") in
  let token := bearer_token authorization in
  token = strip (remove_all (lit "Bearer ") header)
  /\ (forall (c : char) (s : str),
        remove_all (lit "Bearer ") (c :: s) =
        if startswith (lit "Bearer ") (c :: s)
        then remove_all (lit "Bearer ") (skipn 7 (c :: s))
        else c :: remove_all (lit "Bearer ") s)
  /\ (forall s : str, ~ occurs (lit "Bearer ") s ->
        bearer_token (Some (lit "Bearer " ++ s)) = strip s
        /\ bearer_token (Some s) = strip s)
  /\ bearer_token None = [] /\ bearer_token (Some []) = []
  /\ (_get_user_by_token db token = None <->
      token = [] \/ db = None \/
      exists d, db = Some d /\
                forall u, In u (user d) -> ~ In token (User.tokens u))
  /\ (forall u : User.t, _get_user_by_token db token = Some u ->
        token <> [] /\
        exists d, db = Some d /\ In u (user d) /\ In token (User.tokens u)).
Proof.
  intros header token.
  assert (Hne : lit "Bearer " <> []) by discriminate.
  split; [reflexivity |]. split.
  { intros c s. now rewrite remove_all_eq by exact Hne. }
  split.
  { intros s Hs. unfold bearer_token. rewrite !or_else_empty_default.
    rewrite remove_all_prefix by exact Hne.
    now rewrite remove_all_absent by assumption. }
  split; [reflexivity |]. split; [reflexivity |]. split.
  - apply get_user_by_token_none.
  - intros u. apply get_user_by_token_some.
Qed.

(** ** Credentials *)

Lemma opt_is_true (x : option str) (y : str) : opt_is x y = true <-> x = Some y.
Proof.
  destruct x as [s|]; simpl; [|split; discriminate].
  rewrite str_eqb_eq. split; [now intros -> | now intros [= ->]].
Qed.

Lemma get_user_by_email_some (d : Database) (email : str) (u : User.t) :
  _get_user_by_email (Some d) email = Some u ->
  In u (user d) /\ User.email u = Some email.
Proof.
  unfold _get_user_by_email, find_one. intros Hf. apply find_some in Hf.
  destruct Hf as [Hu He]. split; [exact Hu | now apply opt_is_true].
Qed.

Lemma get_user_by_email_none (d : Database) (email : str) :
  _get_user_by_email (Some d) email = None <->
  forall u, In u (user d) -> User.email u <> Some email.
Proof.
  unfold _get_user_by_email, find_one. split.
  - intros Hn u Hu He. pose proof (find_none _ _ Hn u Hu) as Hf. cbv beta in Hf.
    apply opt_is_true in He. congruence.
  - intros Hall. destruct (find _ (user d)) as [u|] eqn:Hf; [|reflexivity].
    apply find_some in Hf. destruct Hf as [Hu He]. apply opt_is_true in He.
    exfalso. exact (Hall u Hu He).
Qed.

Lemma encodable_app (a b : str) :
  encodable (a ++ b) = encodable a && encodable b.
Proof. unfold encodable. apply forallb_app. Qed.

(** [login] returns a response exactly when the store yields a user for the
    email, the digest can be computed and it is the stored one. *)
Lemma login_succeeds_iff_found
      (sha256_hexdigest : str -> str) (req : LoginRequest)
      (db : option Database) (token : str) (now : datetime) :
  (exists r db', login sha256_hexdigest req db token now = (inr r, db')) <->
  (exists u, _get_user_by_email db (login_email req) = Some u /\
             encodable (get_or (User.salt u) (lit "") ++ login_password req)
             = true /\
             User.password_hash u =
             Some (sha256_hexdigest
                     (get_or (User.salt u) (lit "") ++ login_password req))).
Proof.
  unfold login, _hash_password. destruct db as [d|].
  2:{ split; [intros (r & db' & H); discriminate H
             | intros (u & H & _); discriminate H]. }
  destruct (_get_user_by_email (Some d) (login_email req)) as [u|] eqn:Hu.
  2:{ split; [intros (r & db' & H); discriminate H
             | intros (u & H & _); discriminate H]. }
  destruct (encodable _) eqn:He.
  2:{ split; [intros (r & db' & H); discriminate H |].
      intros (u' & [= <-] & He' & _). congruence. }
  destruct (opt_is (User.password_hash u) _) eqn:Hh; cbn [negb].
  - apply opt_is_true in Hh. split; [intros _; now exists u | intros _; eauto].
  - split; [intros (r & db' & H); discriminate H |].
    intros (u' & [= <-] & _ & Hm). apply opt_is_true in Hm. congruence.
Qed.

Lemma NoDup_map_inv_eq {A B : Type} (f : A -> B) (l : list A) (x y : A) :
  NoDup (map f l) -> In x l -> In y l -> f x = f y -> x = y.
Proof.
  induction l as [|a l IH]; simpl; [tauto |].
  intros Hnd Hx Hy E. inversion Hnd as [|? ? Hnotin Hnd']; subst.
  destruct Hx as [-> | Hx], Hy as [-> | Hy]; auto.
  - exfalso. apply Hnotin. rewrite E. now apply in_map.
  - exfalso. apply Hnotin. rewrite <- E. now apply in_map.
Qed.

(** With pairwise distinct emails, the user the store yields for an email is
    the one user that has it. *)
Lemma get_user_by_email_unique (d : Database) (email : str) (u : User.t) :
  NoDup (map User.email (user d)) ->
  In u (user d) -> User.email u = Some email ->
  _get_user_by_email (Some d) email = Some u.
Proof.
  intros Hnd Hin He.
  destruct (_get_user_by_email (Some d) email) as [v|] eqn:Hv.
  - apply get_user_by_email_some in Hv. destruct Hv as [Hvin Hve].
    f_equal. apply (NoDup_map_inv_eq User.email (user d)); congruence || assumption.
  - exfalso. exact (proj1 (get_user_by_email_none _ _) Hv u Hin He).
Qed.

(** C3, as stated, fails.  First, the digest is computed before it is
    compared and raises on a password that cannot be encoded: for the email
    of a stored user such a password is answered with status 500, for an
    unknown email with status 401, so the two causes are told apart.
    Second, when two stored users share an email only the first is tried: a
    user with that email and a matching digest exists and [login] still
    answers 401. *)
Lemma login_counterexample :
  (forall (sha : str -> str) (token : str) (now : datetime),
      login sha (mkLoginRequest (lit "a@x.com") [55296%N]) sample_db token now
      = (inl internal_server_error, sample_db)
      /\ login sha (mkLoginRequest (lit "z@x.com") [55296%N]) sample_db token now
         = (inl invalid_credentials, sample_db))
  /\ status_code internal_server_error <> status_code invalid_credentials
  /\ (forall (sha : str -> str) (token : str) (now : datetime),
        sha (lit "aa" ++ lit "pw2") <> sha (lit "aa" ++ lit "pw1") ->
        login sha (mkLoginRequest (lit "a@x.com") (lit "pw2")) (twin_db sha)
          token now
        = (inl invalid_credentials, twin_db sha)
        /\ exists d u,
             twin_db sha = Some d /\ In u (user d)
             /\ User.email u = Some (lit "a@x.com")
             /\ User.password_hash u
                = Some (sha (get_or (User.salt u) (lit "") ++ lit "pw2"))).
Proof.
  split; [|split].
  - intros sha token now. split; reflexivity.
  - discriminate.
  - intros sha token now Hne. split.
    + unfold login, twin_db, _hash_password.
      cbn [_get_user_by_email find_one user find User.email opt_is].
      rewrite str_eqb_refl.
      cbn [User.salt get_or login_password User.password_hash opt_is].
      change (encodable (lit "aa" ++ lit "pw2")) with true. cbv iota.
      apply str_eqb_neq in Hne. rewrite PyStr_eqb_sym, Hne. reflexivity.
    + eexists; eexists. split; [reflexivity |].
      split; [right; left; reflexivity |]. split; reflexivity.
Qed.

(** C3, amended: on a store whose users have pairwise distinct emails and
    encodable salts, and for a password that can be encoded, [login] returns a
    response exactly when a stored user has the email and the SHA-256 hex
    digest of that user's salt followed by the password is the stored
    [password_hash]; an email no stored user has, and a digest that differs,
    raise one and the same exception, status 401 with detail
    ["Invalid credentials"], and leave the store as it is. *)
Theorem login_succeeds_iff_hash_matches
        (sha256_hexdigest : str -> str) (req : LoginRequest)
        (d : Database) (token : str) (now : datetime) :
  NoDup (map User.email (user d)) ->
  (forall u, In u (user d) ->
             encodable (get_or (User.salt u) (lit "")) = true) ->
  encodable (login_password req) = true ->
  let digest_matches (u : User.t) :=
    User.password_hash u =
    Some (sha256_hexdigest (get_or (User.salt u) (lit "") ++ login_password req)) in
  ((exists r db', login sha256_hexdigest req (Some d) token now = (inr r, db')) <->
   (exists u, In u (user d) /\ User.email u = Some (login_email req)
              /\ digest_matches u))
  /\ ((forall u, In u (user d) -> User.email u <> Some (login_email req)) ->
      login sha256_hexdigest req (Some d) token now
      = (inl invalid_credentials, Some d))
  /\ (forall u, In u (user d) -> User.email u = Some (login_email req) ->
        ~ digest_matches u ->
        login sha256_hexdigest req (Some d) token now
        = (inl invalid_credentials, Some d))
  /\ status_code invalid_credentials = 401
  /\ detail invalid_credentials = lit "Invalid credentials".
Proof.
  intros Hnd Hsalt Hpw digest_matches. subst digest_matches. cbv beta.
  assert (Henc : forall u, In u (user d) ->
                 encodable (get_or (User.salt u) (lit "") ++ login_password req)
                 = true).
  { intros u Hu. now rewrite encodable_app, (Hsalt u Hu), Hpw. }
  split; [|split; [|split; [|split; reflexivity]]].
  - rewrite login_succeeds_iff_found. split.
    + intros (u & Hu & _ & Hm). apply get_user_by_email_some in Hu.
      exists u. tauto.
    + intros (u & Hin & He & Hm). exists u.
      split; [now apply get_user_by_email_unique |]. auto.
  - intros Hnone. unfold login.
    now rewrite (proj2 (get_user_by_email_none d (login_email req)) Hnone).
  - intros u Hin He Hm. unfold login, _hash_password.
    rewrite (get_user_by_email_unique d _ u Hnd Hin He), (Henc u Hin).
    destruct (opt_is (User.password_hash u) _) eqn:Hh; [|reflexivity].
    apply opt_is_true in Hh. contradiction.
Qed.

Lemma login_succeeds_iff_hash_matches_witness :
  let digest_matches (u : User.t) :=
    User.password_hash u =
    Some ((fun s : str => s)
            (get_or (User.salt u) (lit "") ++ login_password carol_login)) in
  ((exists r db',
       login (fun s => s) carol_login (Some carol_db) login_token 4000
       = (inr r, db')) <->
   (exists u, In u (user carol_db)
              /\ User.email u = Some (login_email carol_login)
              /\ digest_matches u))
  /\ ((forall u, In u (user carol_db) ->
                 User.email u <> Some (login_email carol_login)) ->
      login (fun s => s) carol_login (Some carol_db) login_token 4000
      = (inl invalid_credentials, Some carol_db))
  /\ (forall u, In u (user carol_db) ->
        User.email u = Some (login_email carol_login) ->
        ~ digest_matches u ->
        login (fun s => s) carol_login (Some carol_db) login_token 4000
        = (inl invalid_credentials, Some carol_db))
  /\ status_code invalid_credentials = 401
  /\ detail invalid_credentials = lit "Invalid credentials".
Proof.
  apply (login_succeeds_iff_hash_matches (fun s => s) carol_login carol_db
           login_token 4000).
  - repeat constructor; simpl; intuition discriminate.
  - intros u [<- | [<- | []]]; reflexivity.
  - reflexivity.
Defined.

(** ** Trips *)

Lemma insert_desc_perm (t : Trip.t) (l : list Trip.t) :
  Permutation (insert_desc t l) (t :: l).
Proof.
  induction l as [|x l IH]; simpl; [apply Permutation_refl |].
  destruct (Trip.created_at x <=? Trip.created_at t).
  - apply Permutation_refl.
  - eapply perm_trans; [apply perm_skip, IH | apply perm_swap].
Qed.

Lemma sort_created_at_desc_perm (l : list Trip.t) :
  Permutation (sort_created_at_desc l) l.
Proof.
  induction l as [|t l IH]; simpl; [constructor |].
  eapply perm_trans; [apply insert_desc_perm | now apply perm_skip].
Qed.

Lemma insert_desc_sorted (t : Trip.t) (l : list Trip.t) :
  StronglySorted newer_first l -> StronglySorted newer_first (insert_desc t l).
Proof.
  induction l as [|x l IH]; intros Hs; simpl.
  - repeat constructor.
  - inversion Hs as [|? ? Hs' Hall]; subst.
    destruct (Z.leb_spec (Trip.created_at x) (Trip.created_at t)) as [Hle | Hgt].
    + constructor; [exact Hs |]. constructor.
      * unfold newer_first. lia.
      * eapply Forall_impl; [|exact Hall]. unfold newer_first. intros; lia.
    + constructor; [now apply IH |].
      eapply Permutation_Forall; [symmetry; apply insert_desc_perm |].
      constructor; [unfold newer_first; lia | exact Hall].
Qed.

Lemma sort_created_at_desc_sorted (l : list Trip.t) :
  StronglySorted newer_first (sort_created_at_desc l).
Proof.
  induction l as [|t l IH]; simpl; [constructor | now apply insert_desc_sorted].
Qed.

(** C7: for the user a valid token resolves to, [list_trips] returns exactly
    the stored trips whose [user_id] is that user's id -- each as often as it
    is stored, none of another user -- ordered by [created_at], most recent
    first. *)
Theorem list_trips_own_trips_newest_first
        (authorization : option str) (d : Database) (u : User.t) :
  _get_user_by_token (Some d) (bearer_token authorization) = Some u ->
  exists l,
    list_trips authorization (Some d) = inr l
    /\ (forall t, In t l <->
                  In t (trip d) /\ Trip.user_id t = oid_str (User._id u))
    /\ Permutation l
         (filter (fun t => PyStr.eqb (Trip.user_id t) (oid_str (User._id u)))
                 (trip d))
    /\ StronglySorted (fun a b => Trip.created_at a >= Trip.created_at b) l.
Proof.
  intros Hu. unfold list_trips. rewrite Hu. eexists. split; [reflexivity |].
  split; [|split].
  - intros t. split.
    + intros Hin.
      apply (Permutation_in _ (sort_created_at_desc_perm _)) in Hin.
      apply filter_In in Hin. now rewrite str_eqb_eq in Hin.
    + intros [Hin He].
      apply (Permutation_in _ (Permutation_sym (sort_created_at_desc_perm _))).
      apply filter_In. now rewrite str_eqb_eq.
  - apply sort_created_at_desc_perm.
  - apply sort_created_at_desc_sorted.
Qed.

(** What [create_trip] returns when it returns a trip. *)
Lemma create_trip_returns
      (ul : str -> str) (req : TripCreateRequest) (authorization : option str)
      (db : option Database) (now1 now2 : datetime) (oid : ObjectId)
      (t : Trip.t) (db' : option Database) :
  create_trip ul req authorization db now1 now2 oid = (inr t, db') ->
  exists d u,
    db = Some d
    /\ _get_user_by_token db (bearer_token authorization) = Some u
    /\ t = Trip.mk oid (oid_str (User._id u))
             (or_else (req_title req)
                (or_else (req_destination req) (lit "Custom Trip")
                 ++ lit " " ++ bullet ++ lit " " ++ of_int (req_days req)
                 ++ lit " days"))
             (req_prompt req) (req_days req)
             (_generate_itinerary ul (req_prompt req) (req_days req)
                (req_destination req) (req_budget req))
             (req_destination req) (req_budget req) now1 now2
    /\ db' = Some (mkDatabase (user d) (trip d ++ [store_trip t])).
Proof.
  unfold create_trip. destruct db as [d|]; [|discriminate].
  destruct (_get_user_by_token (Some d) (bearer_token authorization)) as [u|];
    [|discriminate].
  intros [= <- <-]. exists d, u. auto.
Qed.

Lemma validate_days_range (d : option Z) (n : Z) :
  validate_days d = Some n -> 1 <= n <= 30.
Proof.
  destruct d as [m|]; simpl.
  - destruct (Z.leb_spec 1 m), (Z.leb_spec m 30); simpl; intros [= <-]; lia.
  - intros [= <-]. lia.
Qed.

Lemma validate_request_days (body : TripCreateBody) (req : TripCreateRequest) :
  validate_TripCreateRequest body = Some req -> 1 <= req_days req <= 30.
Proof.
  unfold validate_TripCreateRequest.
  destruct (body_prompt body) as [p|]; [|discriminate].
  destruct (validate_days (body_days body)) as [n|] eqn:Hn; [|discriminate].
  intros [= <-]. simpl. now apply validate_days_range in Hn.
Qed.

(** C6: a body whose [days] lies outside [1..30] -- 0 and 31 among them -- is
    answered at the boundary: the handler, and with it the generator, is not
    called and the store is returned as it was.  A body without [days] is
    handled as one with [days = 3].  Every trip that is created has
    [1 <= days <= 30]. *)
Theorem days_validated_at_boundary
        (ul : str -> str) (body : TripCreateBody) (authorization : option str)
        (db : option Database) (now1 now2 : datetime) (oid : ObjectId) :
  (forall n : Z, body_days body = Some n -> n < 1 \/ 30 < n ->
     validate_TripCreateRequest body = None
     /\ post_api_trips ul body authorization db now1 now2 oid
        = (Unprocessable, db))
  /\ (forall p : str, body_prompt body = Some p -> body_days body = None ->
        let req := mkTripCreateRequest p 3 (body_destination body)
                     (body_budget body) (body_title body) in
        validate_TripCreateRequest body = Some req
        /\ post_api_trips ul body authorization db now1 now2 oid
           = (Handled (fst (create_trip ul req authorization db now1 now2 oid)),
              snd (create_trip ul req authorization db now1 now2 oid)))
  /\ (forall (t : Trip.t) (db' : option Database),
        post_api_trips ul body authorization db now1 now2 oid
        = (Handled (inr t), db') ->
        1 <= Trip.days t <= 30
        /\ Z.of_nat (List.length (Trip.itinerary t)) = Trip.days t).
Proof.
  split; [|split].
  - intros n Hn Hout.
    assert (Hv : validate_TripCreateRequest body = None).
    { unfold validate_TripCreateRequest, validate_days. rewrite Hn.
      destruct (body_prompt body); [|reflexivity].
      destruct (Z.leb_spec 1 n), (Z.leb_spec n 30); simpl; try reflexivity; lia. }
    split; [exact Hv |]. unfold post_api_trips. now rewrite Hv.
  - intros p Hp Hd req.
    assert (Hv : validate_TripCreateRequest body = Some req).
    { unfold validate_TripCreateRequest. now rewrite Hp, Hd. }
    split; [exact Hv |]. unfold post_api_trips. rewrite Hv.
    now destruct (create_trip ul req authorization db now1 now2 oid).
  - intros t db' H. unfold post_api_trips in H.
    destruct (validate_TripCreateRequest body) as [req|] eqn:Hv; [|discriminate].
    apply validate_request_days in Hv.
    destruct (create_trip ul req authorization db now1 now2 oid) as [r db'']
      eqn:Hc.
    injection H as -> ->.
    apply create_trip_returns in Hc.
    destruct Hc as (d & u & _ & _ & -> & _). cbn [Trip.days Trip.itinerary].
    split; [exact Hv |]. rewrite generate_length. lia.
Qed.

(** C9, as stated, fails: the stored [budget] of a trip created with budget
    ["LUXURY"] is ["LUXURY"], and that of a trip created with no budget is
    absent; neither is one of the three lower-case names. *)
Lemma stored_budget_counterexample :
  let names :=
    [Some (lit "shoestring"); Some (lit "standard"); Some (lit "luxury")] in
  (exists t db',
      create_trip (fun s => s) sample_request sample_authorization sample_db
        2000 2001 sample_oid = (inr t, db')
      /\ Trip.budget t = Some (lit "LUXURY")
      /\ ~ In (Trip.budget t) names)
  /\ (exists t db',
      create_trip (fun s => s) bare_request sample_authorization sample_db
        2000 2001 sample_oid = (inr t, db')
      /\ Trip.budget t = None
      /\ ~ In (Trip.budget t) names).
Proof.
  split; eexists; eexists; (split; [vm_compute; reflexivity |]);
    (split; [reflexivity |]);
    cbn [Trip.budget]; intros [H | [H | [H | []]]]; discriminate H.
Qed.

(** C9, amended: the [budget] of a created trip, in the document returned
    and in the document the store keeps, is the request's budget as it was
    sent -- absent when absent, otherwise the same string, whatever its case
    or spelling; the trip is appended to the store; only the hints of its
    itinerary come from the budget resolved to one of the three triples. *)
Theorem stored_budget_is_request_budget
        (ul : str -> str) (req : TripCreateRequest)
        (authorization : option str) (db : option Database)
        (now1 now2 : datetime) (oid : ObjectId)
        (t : Trip.t) (db' : option Database) :
  create_trip ul req authorization db now1 now2 oid = (inr t, db') ->
  Trip.budget t = req_budget req
  /\ (exists d, db = Some d
                /\ db' = Some (mkDatabase (user d) (trip d ++ [store_trip t])))
  /\ Trip.budget (store_trip t) = req_budget req
  /\ Trip.itinerary t =
     map (day_plan (req_prompt req) (req_destination req)
            (resolve_hints ul (req_budget req)))
         (range 1 (req_days req + 1))
  /\ In (resolve_hints ul (req_budget req))
        [shoestring_hints; standard_hints; luxury_hints].
Proof.
  intros H. apply create_trip_returns in H.
  destruct H as (d & u & -> & _ & -> & ->).
  cbn [Trip.budget Trip.itinerary store_trip].
  split; [reflexivity |]. split; [eexists; split; reflexivity |].
  split; [reflexivity |]. split; [reflexivity |].
  rewrite resolve_hints_cases. cbv zeta.
  repeat match goal with |- context [if ?c then _ else _] => destruct c end;
    simpl; auto.
Qed.




(** C5: two calls of the generator with the same arguments return the same
    itinerary; and the itinerary of a created trip depends on nothing but
    these four arguments -- not on the store, the caller, the clock or the
    identifier assigned. *)
Theorem generate_itinerary_deterministic
        (ul : str -> str) (prompt1 prompt2 : str) (days1 days2 : Z)
        (destination1 destination2 budget1 budget2 : option str) :
  prompt1 = prompt2 -> days1 = days2 -> destination1 = destination2 ->
  budget1 = budget2 ->
  _generate_itinerary ul prompt1 days1 destination1 budget1
  = _generate_itinerary ul prompt2 days2 destination2 budget2
  /\ forall (title1 title2 authorization1 authorization2 : option str)
            (db1 db2 : option Database) (now1 now2 now3 now4 : datetime)
            (oid1 oid2 : ObjectId) (t1 t2 : Trip.t)
            (db1' db2' : option Database),
       create_trip ul
         (mkTripCreateRequest prompt1 days1 destination1 budget1 title1)
         authorization1 db1 now1 now2 oid1 = (inr t1, db1') ->
       create_trip ul
         (mkTripCreateRequest prompt2 days2 destination2 budget2 title2)
         authorization2 db2 now3 now4 oid2 = (inr t2, db2') ->
       Trip.itinerary t1 = Trip.itinerary t2.
Proof.
  intros -> -> -> ->. split; [reflexivity |].
  intros title1 title2 a1 a2 db1 db2 n1 n2 n3 n4 o1 o2 t1 t2 db1' db2' H1 H2.
  apply create_trip_returns in H1, H2.
  destruct H1 as (? & ? & _ & _ & -> & _), H2 as (? & ? & _ & _ & -> & _).
  reflexivity.
Qed.

(** ** Concrete runs *)

Example of_int_runs :
  of_int 0 = lit "0" /\ of_int 3 = lit "3" /\ of_int 30 = lit "30"
  /\ of_int (-5) = lit "-5".
Proof. repeat split. Qed.

Example generate_run :
  let it := _generate_itinerary (fun s => s) (lit "See the sights") 3
              (Some (lit "Paris")) (Some (lit "luxury")) in
  map day it = [1; 2; 3]
  /\ map theme it
     = [lit "Day 1 " ++ bullet ++ lit " Paris";
        lit "Day 2 " ++ bullet ++ lit " Paris";
        lit "Day 3 " ++ bullet ++ lit " Paris"]
  /\ Forall (fun p => evening p
        = lit "Dinner with a view, then a relaxing walk. End with chauffeur back to stay.")
       it
  /\ _generate_itinerary (fun s => s) (lit "See the sights") 0 None None = []
  /\ _generate_itinerary (fun s => s) (lit "See the sights") (-2) None None = [].
Proof. repeat split; repeat constructor. Qed.

Example long_prompt_length : len long_prompt = 90.
Proof. reflexivity. Qed.

Example list_trips_run :
  list_trips sample_authorization (Some two_user_db) = inr [T4; T3; T1]
  /\ list_trips (Some other_token) (Some two_user_db) = inr [T2]
  /\ list_trips (Some (lit "Bearer nobody")) (Some two_user_db) = inl unauthorized
  /\ list_trips sample_authorization None = inl not_configured.
Proof. repeat split. Qed.

Example create_trip_run :
  create_trip (fun s => s) sample_request sample_authorization sample_db
    2000 2001 sample_oid
  = (inr sample_trip, Some (mkDatabase [sample_user] [store_trip sample_trip]))
  /\ Trip.updated_at sample_trip = 2001
  /\ Trip.updated_at (store_trip sample_trip) = 2000.
Proof. split; [vm_compute; reflexivity | split; reflexivity]. Qed.

Example post_api_trips_run :
  let body (days : option Z) :=
    mkTripCreateBody (Some (lit "See the sights")) days None None None in
  post_api_trips (fun s => s) (body (Some 0)) sample_authorization sample_db
    2000 2001 sample_oid = (Unprocessable, sample_db)
  /\ post_api_trips (fun s => s) (body (Some 31)) sample_authorization sample_db
       2000 2001 sample_oid = (Unprocessable, sample_db)
  /\ post_api_trips (fun s => s) (body (Some 0)) None sample_db
       2000 2001 sample_oid = (Unprocessable, sample_db)
  /\ exists t db',
       post_api_trips (fun s => s) (body None) sample_authorization sample_db
         2000 2001 sample_oid = (Handled (inr t), db')
       /\ Trip.days t = 3 /\ map day (Trip.itinerary t) = [1; 2; 3]
       /\ Trip.title t = lit "Custom Trip " ++ bullet ++ lit " 3 days".
Proof.
  repeat split. eexists; eexists. split; [vm_compute; reflexivity |].
  repeat split.
Qed.

(** Registration followed by two logins, with the identity standing in for
    the digest. *)
Example register_then_login :
  let sha (s : str) := s in
  let empty := Some (mkDatabase [] []) in
  let reg := mkRegisterRequest (lit "Alice") (lit "a@x.com") (lit "pw123") in
  let db1 := snd (register sha reg empty (lit "00ff") sample_token
                    sample_oid 1 2) in
  fst (register sha reg empty (lit "00ff") sample_token sample_oid 1 2)
  = inr (mkAuthResponse sample_token (lit "Alice") (lit "a@x.com"))
  /\ fst (register sha reg db1 (lit "11ee") other_token sample_oid 3 4)
     = inl already_registered
  /\ fst (login sha (mkLoginRequest (lit "a@x.com") (lit "pw123")) db1
            other_token 5)
     = inr (mkAuthResponse other_token (lit "Alice") (lit "a@x.com"))
  /\ fst (login sha (mkLoginRequest (lit "a@x.com") (lit "wrong")) db1
            other_token 5)
     = inl invalid_credentials
  /\ fst (login sha (mkLoginRequest (lit "z@x.com") (lit "pw123")) db1
            other_token 5)
     = inl invalid_credentials
  /\ option_map User.name
       (_get_user_by_token
          (snd (login sha (mkLoginRequest (lit "a@x.com") (lit "pw123")) db1
                  other_token 5))
          (bearer_token (Some (lit "Bearer " ++ other_token))))
     = Some (Some (lit "Alice")).
Proof. repeat split. Qed.

Example bearer_token_runs :
  bearer_token (Some (lit "Bearer abc")) = lit "abc"
  /\ bearer_token (Some (lit "abc")) = lit "abc"
  /\ bearer_token (Some (lit "  Bearer abc  ")) = lit "abc"
  /\ bearer_token (Some (lit "Bearer Bearer abc")) = lit "abc"
  /\ bearer_token (Some (lit "aBearer bc")) = lit "abc"
  /\ bearer_token (Some (lit "Bearer ")) = lit ""
  /\ bearer_token None = lit "".
Proof. repeat split. Qed.

(** ** Witnesses *)

Lemma morning_embeds_first_80_chars_witness :
  let p := day_plan long_prompt None standard_hints 1 in
  morning p =
    lit "Start with " ++ item (resolve_hints (fun s => s) None) 0
    ++ lit " near the main square. Stroll through a scenic district inspired by: "
    ++ slice_to 80 long_prompt
  /\ (81 <= len long_prompt ->
      len (slice_to 80 long_prompt) = 80 /\
      exists rest, rest <> [] /\ long_prompt = slice_to 80 long_prompt ++ rest)
  /\ (len long_prompt <= 80 -> slice_to 80 long_prompt = long_prompt).
Proof.
  intros p.
  apply (morning_embeds_first_80_chars (fun s => s) long_prompt 2 None None p).
  left. reflexivity.
Defined.

Lemma list_trips_own_trips_newest_first_witness :
  exists l,
    list_trips sample_authorization (Some two_user_db) = inr l
    /\ (forall t, In t l <->
                  In t (trip two_user_db)
                  /\ Trip.user_id t = oid_str (User._id sample_user))
    /\ Permutation l
         (filter (fun t => PyStr.eqb (Trip.user_id t)
                             (oid_str (User._id sample_user)))
                 (trip two_user_db))
    /\ StronglySorted (fun a b => Trip.created_at a >= Trip.created_at b) l.
Proof.
  apply (list_trips_own_trips_newest_first sample_authorization two_user_db
           sample_user).
  reflexivity.
Defined.

Lemma stored_budget_is_request_budget_witness :
  Trip.budget sample_trip = req_budget sample_request
  /\ (exists d, sample_db = Some d
                /\ Some (mkDatabase [sample_user] [store_trip sample_trip])
                   = Some (mkDatabase (user d)
                             (trip d ++ [store_trip sample_trip])))
  /\ Trip.budget (store_trip sample_trip) = req_budget sample_request
  /\ Trip.itinerary sample_trip =
     map (day_plan (req_prompt sample_request) (req_destination sample_request)
            (resolve_hints (fun s => s) (req_budget sample_request)))
         (range 1 (req_days sample_request + 1))
  /\ In (resolve_hints (fun s => s) (req_budget sample_request))
        [shoestring_hints; standard_hints; luxury_hints].
Proof.
  apply (stored_budget_is_request_budget (fun s => s) sample_request
           sample_authorization sample_db 2000 2001 sample_oid sample_trip
           (Some (mkDatabase [sample_user] [store_trip sample_trip]))).
  vm_compute. reflexivity.
Defined.

Lemma generate_itinerary_deterministic_witness :
  _generate_itinerary (fun s => s) long_prompt 2 (Some (lit "Paris")) None
  = _generate_itinerary (fun s => s) long_prompt 2 (Some (lit "Paris")) None
  /\ forall (title1 title2 authorization1 authorization2 : option str)
            (db1 db2 : option Database) (now1 now2 now3 now4 : datetime)
            (oid1 oid2 : ObjectId) (t1 t2 : Trip.t)
            (db1' db2' : option Database),
       create_trip (fun s => s)
         (mkTripCreateRequest long_prompt 2 (Some (lit "Paris")) None title1)
         authorization1 db1 now1 now2 oid1 = (inr t1, db1') ->
       create_trip (fun s => s)
         (mkTripCreateRequest long_prompt 2 (Some (lit "Paris")) None title2)
         authorization2 db2 now3 now4 oid2 = (inr t2, db2') ->
       Trip.itinerary t1 = Trip.itinerary t2.
Proof.
  apply (generate_itinerary_deterministic (fun s => s) long_prompt long_prompt
           2 2 (Some (lit "Paris")) (Some (lit "Paris")) None None);
    reflexivity.
Defined.

(** * Further properties of the handlers *)

(** ** Tokens in headers *)

Lemma hex_digit_not_space (c : char) : is_hex_digit c = true -> isspace c = false.
Proof.
  unfold is_hex_digit, isspace. intros H.
  apply not_true_is_false. intros Hs.
  repeat match goal with
         | H : _ || _ = true |- _ => apply orb_true_iff in H; destruct H
         | H : _ && _ = true |- _ => apply andb_true_iff in H; destruct H
         | H : (_ <=? _)%N = true |- _ => apply N.leb_le in H
         | H : (_ =? _)%N = true |- _ => apply N.eqb_eq in H
         end; lia.
Qed.

Lemma lstrip_no_leading_space (s : str) :
  match s with [] => True | c :: _ => isspace c = false end -> lstrip s = s.
Proof. destruct s as [|c s]; simpl; [reflexivity | now intros ->]. Qed.

Lemma strip_no_space (s : str) :
  forallb (fun c => negb (isspace c)) s = true -> strip s = s.
Proof.
  intros H. unfold strip, rstrip.
  assert (Hl : lstrip s = s).
  { apply lstrip_no_leading_space. destruct s as [|c s]; [exact I |].
    simpl in H. apply andb_true_iff in H. now destruct (isspace c). }
  rewrite Hl.
  assert (Hr : lstrip (rev s) = rev s).
  { apply lstrip_no_leading_space.
    destruct (rev s) as [|c r] eqn:E; [exact I |].
    assert (Hin : In c s) by (apply in_rev; rewrite E; now left).
    rewrite forallb_forall in H. specialize (H c Hin). now destruct (isspace c). }
  rewrite Hr. apply rev_involutive.
Qed.

Lemma hex_has_no_bearer (t : str) :
  forallb is_hex_digit t = true -> ~ occurs (lit "Bearer ") t.
Proof.
  intros H (a & b & ->). rewrite forallb_forall in H.
  assert (Hb : is_hex_digit 66%N = true).
  { apply H. apply in_or_app. right. now left. }
  discriminate Hb.
Qed.

(** X1: a token of the alphabet of [secrets.token_hex] comes back unchanged
    from a header that carries it after ["Bearer "], and from a header that
    carries it alone. *)
Theorem hex_token_survives_header (t : str) :
  forallb is_hex_digit t = true ->
  bearer_token (Some (lit "Bearer " ++ t)) = t
  /\ bearer_token (Some t) = t.
Proof.
  intros H.
  assert (Hs : strip t = t).
  { apply strip_no_space. rewrite forallb_forall in *. intros c Hc.
    now rewrite (hex_digit_not_space c (H c Hc)). }
  assert (Hne : lit "Bearer " <> []) by discriminate.
  unfold bearer_token. rewrite !or_else_empty_default.
  rewrite remove_all_prefix by exact Hne.
  rewrite remove_all_absent by (exact Hne || now apply hex_has_no_bearer).
  auto.
Qed.

Lemma hex_token_survives_header_witness :
  bearer_token (Some (lit "Bearer " ++ sample_token)) = sample_token
  /\ bearer_token (Some sample_token) = sample_token.
Proof. apply (hex_token_survives_header sample_token). reflexivity. Defined.

(** ** Registration *)

Lemma find_app_none {A : Type} (p : A -> bool) (l m : list A) :
  find p l = None -> find p (l ++ m) = find p m.
Proof.
  induction l as [|x l IH]; simpl; [reflexivity |].
  destruct (p x); [discriminate | exact IH].
Qed.

Lemma find_app_some {A : Type} (p : A -> bool) (l m : list A) (x : A) :
  find p l = Some x -> find p (l ++ m) = Some x.
Proof.
  induction l as [|y l IH]; simpl; [discriminate |].
  destruct (p y); [auto | exact IH].
Qed.

(** What [register] returns and stores when it returns a response. *)
Lemma register_returns
      (sha : str -> str) (req : RegisterRequest) (db : option Database)
      (salt token : str) (oid : ObjectId) (now1 now2 : datetime)
      (a : AuthResponse) (db' : option Database) :
  register sha req db salt token oid now1 now2 = (inr a, db') ->
  exists d,
    db = Some d
    /\ _get_user_by_email db (reg_email req) = None
    /\ encodable (salt ++ reg_password req) = true
    /\ a = mkAuthResponse token (reg_name req) (reg_email req)
    /\ db' = Some (mkDatabase
                     (user d ++
                      [User.mk oid (Some (reg_name req)) (Some (reg_email req))
                         (Some (sha (salt ++ reg_password req))) (Some salt)
                         [token] (stored_instant now1) (stored_instant now2)])
                     (trip d)).
Proof.
  unfold register, _hash_password. destruct db as [d|]; [|discriminate].
  destruct (_get_user_by_email (Some d) (reg_email req)) as [u|] eqn:E;
    [discriminate |].
  destruct (encodable (salt ++ reg_password req)) eqn:Henc; [|discriminate].
  intros [= <- <-]. exists d. auto.
Qed.

(** X2: [register] keeps the emails of the store pairwise distinct, leaves
    the documents it finds in place and adds at most one. *)
Theorem register_keeps_emails_unique
        (sha : str -> str) (req : RegisterRequest) (d : Database)
        (salt token : str) (oid : ObjectId) (now1 now2 : datetime) :
  NoDup (map User.email (user d)) ->
  exists d' added,
    snd (register sha req (Some d) salt token oid now1 now2) = Some d'
    /\ user d' = user d ++ added
    /\ (List.length added <= 1)%nat
    /\ trip d' = trip d
    /\ NoDup (map User.email (user d')).
Proof.
  intros Hnd. unfold register.
  destruct (_get_user_by_email (Some d) (reg_email req)) as [u|] eqn:E;
    [|destruct (_hash_password sha (reg_password req) salt) as [h|]].
  - exists d, []. cbn [snd]. rewrite app_nil_r. repeat split; auto.
  - eexists; eexists. cbn [snd]. split; [reflexivity |]. cbn [user trip].
    split; [reflexivity |]. split; [simpl; lia |]. split; [reflexivity |].
    rewrite map_app. cbn [map User.email].
    apply NoDup_app; [exact Hnd | repeat constructor; simpl; tauto |].
    intros e He [<- | []]. apply in_map_iff in He. destruct He as (u & Hue & Hu).
    exact (proj1 (get_user_by_email_none d (reg_email req)) E u Hu Hue).
  - exists d, []. cbn [snd]. rewrite app_nil_r. repeat split; auto.
Qed.

(** X3: once an email is registered, a second registration with that email
    is refused with status 400 and leaves the store as it is, whatever name
    and password it carries. *)
Theorem register_twice_is_refused
        (sha : str -> str) (req req2 : RegisterRequest) (db db1 : option Database)
        (salt salt2 token token2 : str) (oid oid2 : ObjectId)
        (now1 now2 now3 now4 : datetime) (a : AuthResponse) :
  register sha req db salt token oid now1 now2 = (inr a, db1) ->
  reg_email req2 = reg_email req ->
  register sha req2 db1 salt2 token2 oid2 now3 now4
  = (inl already_registered, db1)
  /\ status_code already_registered = 400.
Proof.
  intros H He. apply register_returns in H.
  destruct H as (d & -> & Hnone & _ & _ & ->).
  split; [|reflexivity].
  unfold register, _get_user_by_email, find_one. cbn [user]. rewrite He.
  unfold _get_user_by_email, find_one in Hnone.
  rewrite (find_app_none _ _ _ Hnone). cbn [find User.email opt_is].
  rewrite str_eqb_refl. reflexivity.
Qed.

(** X4: after a registration, [login] with the registered email and
    password returns a response with the freshly drawn token and the
    registered name and email, whatever the digest function is. *)
Theorem register_then_login_succeeds
        (sha : str -> str) (req : RegisterRequest) (db db1 : option Database)
        (salt token token' : str) (oid : ObjectId)
        (now1 now2 now3 : datetime) (a : AuthResponse) :
  register sha req db salt token oid now1 now2 = (inr a, db1) ->
  fst (login sha (mkLoginRequest (reg_email req) (reg_password req)) db1
         token' now3)
  = inr (mkAuthResponse token' (reg_name req) (reg_email req)).
Proof.
  intros H. apply register_returns in H.
  destruct H as (d & -> & Hnone & Henc & _ & ->).
  unfold login, _hash_password, _get_user_by_email, find_one.
  cbn [user login_email login_password].
  unfold _get_user_by_email, find_one in Hnone.
  rewrite (find_app_none _ _ _ Hnone). cbn [find User.email opt_is].
  rewrite str_eqb_refl.
  cbn [User.salt User.password_hash User.name User.email get_or opt_is].
  rewrite Henc. cbn [opt_is].
  rewrite str_eqb_refl. reflexivity.
Qed.

(** X5: the token a registration returns opens [me] for the registered
    user, provided it is a non-empty string of the token alphabet that no
    user of the store held before. *)
Theorem registered_token_opens_me
        (sha : str -> str) (req : RegisterRequest) (d : Database)
        (db1 : option Database) (salt token : str) (oid : ObjectId)
        (now1 now2 : datetime) (a : AuthResponse) :
  register sha req (Some d) salt token oid now1 now2 = (inr a, db1) ->
  token <> [] ->
  forallb is_hex_digit token = true ->
  (forall u, In u (user d) -> ~ In token (User.tokens u)) ->
  me (Some (lit "Bearer " ++ auth_token a)) db1
  = inr (Some (reg_name req), Some (reg_email req)).
Proof.
  intros H Hne Hhex Hfresh. apply register_returns in H.
  destruct H as (d0 & [= <-] & _ & _ & -> & ->). cbn [auth_token].
  unfold me. rewrite (proj1 (hex_token_survives_header token Hhex)).
  assert (Hnone : _get_user_by_token (Some d) token = None).
  { apply get_user_by_token_none. right; right. exists d. auto. }
  unfold _get_user_by_token, find_one in *.
  destruct token as [|c token]; [congruence |]. cbn [truthy negb] in *.
  cbn [user]. rewrite (find_app_none _ _ _ Hnone).
  cbn [find User.tokens existsb]. rewrite str_eqb_refl. reflexivity.
Qed.

(** ** Login *)

Lemma update_one_split {A : Type} (q : A -> bool) (f : A -> A) (l : list A) (u : A) :
  In u l -> q u = true ->
  exists l1 x l2,
    l = l1 ++ x :: l2 /\ q x = true
    /\ (forall y, In y l1 -> q y = false)
    /\ update_one q f l = l1 ++ f x :: l2.
Proof.
  induction l as [|y l IH]; intros Hin Hq; [destruct Hin |].
  simpl. destruct (q y) eqn:Ey.
  - exists [], y, l. simpl. repeat split; auto. intros ? [].
  - destruct Hin as [-> | Hin]; [congruence |].
    destruct (IH Hin Hq) as (l1 & x & l2 & -> & Hx & Hl1 & Hup).
    exists (y :: l1), x, l2. simpl. rewrite Hup. repeat split; auto.
    intros z [<- | Hz]; auto.
Qed.

(** What [login] returns and stores when it returns a response. *)
Lemma login_returns
      (sha : str -> str) (req : LoginRequest) (db : option Database)
      (token : str) (now : datetime) (a : AuthResponse) (db' : option Database) :
  login sha req db token now = (inr a, db') ->
  exists d u,
    db = Some d
    /\ In u (user d) /\ User.email u = Some (login_email req)
    /\ _get_user_by_email db (login_email req) = Some u
    /\ a = mkAuthResponse token (get_or (User.name u) (lit ""))
             (login_email req)
    /\ db' = Some (mkDatabase
                     (update_one (fun x => PyStr.eqb (User._id x) (User._id u))
                        (with_token token (stored_instant now)) (user d))
                     (trip d)).
Proof.
  unfold login. destruct db as [d|]; [|discriminate].
  destruct (_get_user_by_email (Some d) (login_email req)) as [u|] eqn:E;
    [|discriminate].
  destruct (_hash_password _ _ _) as [expected|]; [|discriminate].
  destruct (negb _); [discriminate |].
  intros [= <- <-]. exists d, u.
  destruct (get_user_by_email_some _ _ _ E) as [Hin He].
  rewrite He. cbn [get_or]. repeat split; auto.
Qed.

Lemma login_fails_store_unchanged
      (sha : str -> str) (req : LoginRequest) (db : option Database)
      (token : str) (now : datetime) (e : HTTPException) (db' : option Database) :
  login sha req db token now = (inl e, db') -> db' = db.
Proof.
  unfold login. destruct db as [d|]; [|now intros [= _ <-]].
  destruct (_get_user_by_email (Some d) (login_email req)) as [u|];
    [|now intros [= _ <-]].
  destruct (_hash_password _ _ _) as [expected|]; [|now intros [= _ <-]].
  destruct (negb _); [now intros [= _ <-] | discriminate].
Qed.

(** X6: a failed [login] leaves the store as it is; a successful one changes
    exactly one user document -- the first that carries the id of the user
    found for the email, no document before it carrying that id -- by
    appending the new token and setting [updated_at] to the instant as the
    store keeps it; no password hash, salt, email, earlier token or trip is
    touched. *)
Theorem login_changes_one_token_list
        (sha : str -> str) (req : LoginRequest) (db : option Database)
        (token : str) (now : datetime) :
  match login sha req db token now with
  | (inl e, db') => db' = db
  | (inr a, db') =>
      exists d d' u l1 x l2,
        db = Some d /\ db' = Some d'
        /\ _get_user_by_email db (login_email req) = Some u
        /\ User._id x = User._id u
        /\ (forall y, In y l1 -> User._id y <> User._id u)
        /\ user d = l1 ++ x :: l2
        /\ user d' = l1 ++ with_token token (stored_instant now) x :: l2
        /\ trip d' = trip d
  end.
Proof.
  destruct (login sha req db token now) as [[e | a] db'] eqn:H.
  - now apply login_fails_store_unchanged in H.
  - apply login_returns in H.
    destruct H as (d & u & -> & Hin & _ & Hu & _ & ->).
    destruct (update_one_split
                (fun x => PyStr.eqb (User._id x) (User._id u))
                (with_token token (stored_instant now)) (user d) u Hin
                (str_eqb_refl _))
      as (l1 & x & l2 & Hl & Hx & Hl1 & Hup).
    apply str_eqb_eq in Hx.
    eexists d, _, u, l1, x, l2. cbn [user trip]. repeat split; eauto.
    intros y Hy. apply str_eqb_neq. now apply Hl1.
Qed.

Lemma find_update_one {A : Type} (p q : A -> bool) (f : A -> A)
      (l : list A) (u : A) :
  (forall x, p (f x) = p x) ->
  find p l = Some u ->
  exists u', find p (update_one q f l) = Some u' /\ (u' = u \/ u' = f u).
Proof.
  intros Hp. induction l as [|x l IH]; simpl; [discriminate |].
  destruct (q x) eqn:Eq; simpl.
  - rewrite Hp. destruct (p x); [intros [= <-]; eauto | eauto].
  - destruct (p x); [intros [= <-]; eauto | exact IH].
Qed.

Lemma existsb_app_other (tok token : str) (l : list str) :
  tok <> token ->
  existsb (PyStr.eqb tok) (l ++ [token]) = existsb (PyStr.eqb tok) l.
Proof.
  intros Hne. rewrite existsb_app. simpl.
  apply str_eqb_neq in Hne. rewrite Hne. now rewrite !orb_false_r.
Qed.

(** X7: no session ends by a [login]: a token other than the one just drawn
    that resolved to a user before the call resolves afterwards to a user
    with the same id, name and email, whether the login succeeded or not. *)
Theorem login_keeps_sessions
        (sha : str -> str) (req : LoginRequest) (db : option Database)
        (token : str) (now : datetime) (tok : str) (u : User.t) :
  tok <> token ->
  _get_user_by_token db tok = Some u ->
  exists u',
    _get_user_by_token (snd (login sha req db token now)) tok = Some u'
    /\ User._id u' = User._id u
    /\ User.name u' = User.name u
    /\ User.email u' = User.email u.
Proof.
  intros Hne Hu.
  destruct (login sha req db token now) as [[e | a] db'] eqn:H; cbn [snd].
  - apply login_fails_store_unchanged in H. subst db'. exists u. auto.
  - apply login_returns in H.
    destruct H as (d & v & -> & _ & _ & _ & _ & ->).
    unfold _get_user_by_token, find_one in *.
    destruct (negb (truthy tok)); [discriminate |]. cbn [user].
    destruct (find_update_one
                (fun x => existsb (PyStr.eqb tok) (User.tokens x))
                (fun x => PyStr.eqb (User._id x) (User._id v))
                (with_token token (stored_instant now)) (user d) u)
      as (u' & Hf & Hu');
      [intros x; cbn [with_token User.tokens]; now apply existsb_app_other
      | exact Hu |].
    exists u'. split; [exact Hf |]. destruct Hu' as [-> | ->]; auto.
Qed.

(** X8: the token a successful [login] returns opens [me] for the user
    with the login's email, provided the ids of the store are pairwise
    distinct and the token is a non-empty string of the token alphabet that
    no user held before. *)
Theorem login_token_opens_me
        (sha : str -> str) (req : LoginRequest) (d : Database)
        (db' : option Database) (token : str) (now : datetime)
        (a : AuthResponse) :
  login sha req (Some d) token now = (inr a, db') ->
  NoDup (map User._id (user d)) ->
  token <> [] ->
  forallb is_hex_digit token = true ->
  (forall u, In u (user d) -> ~ In token (User.tokens u)) ->
  exists name,
    me (Some (lit "Bearer " ++ auth_token a)) db'
    = inr (name, Some (login_email req))
    /\ get_or name (lit "") = auth_name a.
Proof.
  intros H Hids Hne Hhex Hfresh. apply login_returns in H.
  destruct H as (d0 & u & [= <-] & Hin & He & _ & -> & ->). cbn [auth_token auth_name].
  destruct (update_one_split
              (fun x => PyStr.eqb (User._id x) (User._id u))
              (with_token token (stored_instant now)) (user d) u Hin
              (str_eqb_refl _))
    as (l1 & x & l2 & Hl & Hx & _ & Hup).
  apply str_eqb_eq in Hx.
  assert (Hxin : In x (user d)) by (rewrite Hl; apply in_elt).
  assert (x = u) by (apply (NoDup_map_inv_eq User._id (user d)); auto).
  subst x. exists (User.name u).
  unfold me. rewrite (proj1 (hex_token_survives_header token Hhex)).
  unfold _get_user_by_token, find_one.
  destruct token as [|c token]; [congruence |]. cbn [truthy negb user].
  rewrite Hup.
  assert (Hnone : find (fun y => existsb (PyStr.eqb (c :: token)) (User.tokens y)) l1
                  = None).
  { destruct (find _ l1) as [y|] eqn:Ef; [|reflexivity].
    apply find_some in Ef. destruct Ef as [Hy Ht].
    apply existsb_exists in Ht. destruct Ht as (t & Ht & Heq).
    apply str_eqb_eq in Heq. subst t. exfalso.
    apply (Hfresh y); [rewrite Hl; apply in_or_app; now left | exact Ht]. }
  rewrite (find_app_none _ _ _ Hnone).
  cbn [find with_token User.tokens].
  rewrite existsb_app. cbn [existsb]. rewrite str_eqb_refl, orb_true_r.
  unfold with_token. cbn [User.name User.email]. rewrite He. auto.
Qed.

(** ** The authorization gate *)


Lemma lstrip_all_space (s : str) : forallb isspace s = true -> lstrip s = [].
Proof.
  induction s as [|c s IH]; simpl; [reflexivity |].
  intros H. apply andb_true_iff in H. destruct H as [-> H]. now apply IH.
Qed.

Lemma space_has_no_bearer (h : str) :
  forallb isspace h = true -> ~ occurs (lit "Bearer ") h.
Proof.
  intros H (a & b & ->). rewrite forallb_forall in H.
  assert (Hb : isspace 66%N = true).
  { apply H. apply in_or_app. right. now left. }
  discriminate Hb.
Qed.

(** X10: a header made of white space only -- the empty header among them --
    carries the empty token, so every protected handler raises status 401 on
    it, whatever the store holds. *)
Theorem blank_header_is_unauthorized
        (ul : str -> str) (req : TripCreateRequest) (h : str) (d : Database)
        (now1 now2 : datetime) (oid : ObjectId) :
  forallb isspace h = true ->
  bearer_token (Some h) = []
  /\ me (Some h) (Some d) = inl unauthorized
  /\ list_trips (Some h) (Some d) = inl unauthorized
  /\ create_trip ul req (Some h) (Some d) now1 now2 oid
     = (inl unauthorized, Some d).
Proof.
  intros H.
  assert (Ht : bearer_token (Some h) = []).
  { unfold bearer_token. rewrite or_else_empty_default.
    rewrite remove_all_absent
      by (discriminate || now apply space_has_no_bearer).
    unfold strip. now rewrite (lstrip_all_space h H). }
  split; [exact Ht |].
  unfold me, list_trips, create_trip. rewrite Ht. auto.
Qed.

(** ** Creating and listing trips *)


Lemma list_trips_returns (authorization : option str) (d : Database) (u : User.t) :
  _get_user_by_token (Some d) (bearer_token authorization) = Some u ->
  list_trips authorization (Some d)
  = inr (sort_created_at_desc
           (filter (fun t => PyStr.eqb (Trip.user_id t) (oid_str (User._id u)))
              (trip d))).
Proof. intros H. unfold list_trips. now rewrite H. Qed.

Lemma get_user_by_token_same_users (d d' : Database) (token : str) :
  user d' = user d ->
  _get_user_by_token (Some d') token = _get_user_by_token (Some d) token.
Proof. intros H. unfold _get_user_by_token. now rewrite H. Qed.

(** X12: after [create_trip] has returned a trip, the caller's listing is the
    earlier listing with the stored form of that trip -- its timestamps cut
    to whole milliseconds -- added once, and the listing of a caller with
    another id is what it was. *)
Theorem create_then_list
        (ul : str -> str) (req : TripCreateRequest)
        (authorization : option str) (d : Database)
        (now1 now2 : datetime) (oid : ObjectId)
        (t : Trip.t) (db' : option Database) :
  create_trip ul req authorization (Some d) now1 now2 oid = (inr t, db') ->
  (exists before after,
      list_trips authorization (Some d) = inr before
      /\ list_trips authorization db' = inr after
      /\ Permutation after (store_trip t :: before)
      /\ In (store_trip t) after)
  /\ (forall (authorization2 : option str) (u2 : User.t),
        _get_user_by_token (Some d) (bearer_token authorization2) = Some u2 ->
        oid_str (User._id u2) <> Trip.user_id t ->
        list_trips authorization2 db' = list_trips authorization2 (Some d)).
Proof.
  intros H. apply create_trip_returns in H.
  destruct H as (d0 & u & [= <-] & Hu & Ht & ->).
  assert (Hid : Trip.user_id t = oid_str (User._id u)) by (now rewrite Ht).
  split.
  - eexists; eexists. split; [exact (list_trips_returns authorization _ u Hu) |].
    split.
    + apply (list_trips_returns authorization _ u).
      rewrite (get_user_by_token_same_users d); [exact Hu | reflexivity].
    + assert (Hp : Permutation
                     (sort_created_at_desc
                        (filter (fun t0 => PyStr.eqb (Trip.user_id t0)
                                             (oid_str (User._id u)))
                           (trip d ++ [store_trip t])))
                     (store_trip t
                      :: sort_created_at_desc
                           (filter (fun t0 => PyStr.eqb (Trip.user_id t0)
                                                (oid_str (User._id u)))
                              (trip d)))).
      { rewrite filter_app. cbn [filter store_trip Trip.user_id].
        rewrite Hid, str_eqb_refl.
        eapply perm_trans; [apply sort_created_at_desc_perm |].
        eapply perm_trans; [apply Permutation_sym, Permutation_cons_append |].
        apply perm_skip, Permutation_sym, sort_created_at_desc_perm. }
      cbn [trip]. split; [exact Hp |].
      apply (Permutation_in _ (Permutation_sym Hp)). now left.
  - intros a2 u2 Hu2 Hne.
    rewrite (list_trips_returns a2 d u2 Hu2).
    rewrite (list_trips_returns a2 _ u2)
      by (rewrite (get_user_by_token_same_users d); [exact Hu2 | reflexivity]).
    cbn [trip]. rewrite filter_app. cbn [filter store_trip Trip.user_id].
    assert (E : PyStr.eqb (Trip.user_id t) (oid_str (User._id u2)) = false)
      by (apply str_eqb_neq; congruence).
    rewrite E, app_nil_r. reflexivity.
Qed.

Lemma sort_app_newest (l : list Trip.t) (t : Trip.t) :
  (forall x, In x l -> Trip.created_at x < Trip.created_at t) ->
  sort_created_at_desc (l ++ [t]) = t :: sort_created_at_desc l.
Proof.
  induction l as [|x l IH]; intros H; [reflexivity |].
  cbn [app sort_created_at_desc]. rewrite IH by (intros y Hy; apply H; now right).
  cbn [insert_desc].
  destruct (Z.leb_spec (Trip.created_at t) (Trip.created_at x)) as [Hle |];
    [|reflexivity].
  specialize (H x (or_introl eq_refl)). lia.
Qed.

(** X13: a trip whose creation instant, cut to whole milliseconds as the
    store keeps it, is later than the stored creation instant of every trip
    the caller already owns is the first of the caller's listing, in its
    stored form, followed by the earlier listing unchanged. *)
Theorem newest_trip_is_listed_first
        (ul : str -> str) (req : TripCreateRequest)
        (authorization : option str) (d : Database)
        (now1 now2 : datetime) (oid : ObjectId)
        (t : Trip.t) (db' : option Database) :
  create_trip ul req authorization (Some d) now1 now2 oid = (inr t, db') ->
  (forall x, In x (trip d) -> Trip.user_id x = Trip.user_id t ->
             Trip.created_at x < 1000 * (now1 / 1000)) ->
  exists before,
    list_trips authorization (Some d) = inr before
    /\ list_trips authorization db' = inr (store_trip t :: before).
Proof.
  intros H Hnew. apply create_trip_returns in H.
  destruct H as (d0 & u & [= <-] & Hu & Ht & ->).
  assert (Hid : Trip.user_id t = oid_str (User._id u)) by (now rewrite Ht).
  assert (Hat : Trip.created_at (store_trip t) = 1000 * (now1 / 1000))
    by (now rewrite Ht).
  eexists. split; [exact (list_trips_returns authorization _ u Hu) |].
  rewrite (list_trips_returns authorization _ u)
    by (rewrite (get_user_by_token_same_users d); [exact Hu | reflexivity]).
  cbn [trip]. rewrite filter_app.
  cbn [filter]. change (Trip.user_id (store_trip t)) with (Trip.user_id t).
  rewrite Hid, str_eqb_refl.
  rewrite sort_app_newest; [reflexivity |].
  intros x Hx. apply filter_In in Hx. destruct Hx as [Hx Hm].
  apply str_eqb_eq in Hm. rewrite Hat. apply Hnew; congruence.
Qed.

Lemma insert_desc_oldest (x : Trip.t) (m : list Trip.t) :
  (forall y, In y m -> Trip.created_at x < Trip.created_at y) ->
  insert_desc x m = m ++ [x].
Proof.
  induction m as [|y m IH]; intros H; [reflexivity |].
  cbn [insert_desc app].
  destruct (Z.leb_spec (Trip.created_at y) (Trip.created_at x)) as [Hle |].
  - specialize (H y (or_introl eq_refl)). lia.
  - f_equal. apply IH. intros z Hz. apply H. now right.
Qed.

Lemma sort_increasing_is_rev (l : list Trip.t) :
  StronglySorted (fun a b => Trip.created_at a < Trip.created_at b) l ->
  sort_created_at_desc l = rev l.
Proof.
  induction 1 as [|x l Hs IH Hall]; [reflexivity |].
  cbn [sort_created_at_desc rev]. rewrite IH.
  apply insert_desc_oldest. intros y Hy. apply in_rev in Hy.
  rewrite Forall_forall in Hall. now apply Hall.
Qed.

(** X14: when the caller's trips were stored with strictly increasing
    creation instants, [list_trips] returns them in the reverse of the order
    in which they were stored. *)
Theorem list_trips_reverses_insertion_order
        (authorization : option str) (d : Database) (u : User.t) :
  _get_user_by_token (Some d) (bearer_token authorization) = Some u ->
  let mine :=
    filter (fun t => PyStr.eqb (Trip.user_id t) (oid_str (User._id u)))
      (trip d) in
  StronglySorted (fun a b => Trip.created_at a < Trip.created_at b) mine ->
  list_trips authorization (Some d) = inr (rev mine).
Proof.
  intros Hu mine Hs. rewrite (list_trips_returns authorization d u Hu).
  f_equal. now apply sort_increasing_is_rev.
Qed.

(** ** More on the generator *)

Lemma lit_inj (a b : string) : lit a = lit b -> a = b.
Proof.
  unfold lit. intros H.
  rewrite <- (string_of_list_ascii_of_string a),
          <- (string_of_list_ascii_of_string b).
  f_equal. revert H. generalize (list_ascii_of_string a) (list_ascii_of_string b).
  induction l as [|x l IH]; intros [|y m]; simpl; try discriminate; [reflexivity |].
  intros [= Hxy Hlm]. f_equal; [|now apply IH].
  rewrite <- (ascii_N_embedding x), <- (ascii_N_embedding y). now rewrite Hxy.
Qed.

Lemma to_int_proper (n : Z) :
  Z.to_int n <> Decimal.Pos Decimal.Nil /\ Z.to_int n <> Decimal.Neg Decimal.Nil.
Proof.
  destruct n as [|p|p]; simpl; split; try discriminate;
    intros [= H]; exact (DecimalPos.Unsigned.to_uint_nonnil p H).
Qed.

Lemma of_int_inj (n m : Z) : of_int n = of_int m -> n = m.
Proof.
  unfold of_int. intros H. apply lit_inj in H.
  apply DecimalZ.to_int_inj.
  destruct (to_int_proper n) as [Hn1 Hn2], (to_int_proper m) as [Hm1 Hm2].
  pose proof (NilZero.isi _ Hn1 Hn2) as En.
  pose proof (NilZero.isi _ Hm1 Hm2) as Em.
  rewrite H in En. congruence.
Qed.

(** X15: the generator does not fail on [days <= 0]: it returns the empty
    itinerary exactly then, and in general [max(0, days)] plans. *)
Theorem generate_nonpositive_days_is_empty
        (ul : str -> str) (prompt : str) (days : Z)
        (destination budget : option str) :
  (_generate_itinerary ul prompt days destination budget = [] <-> days <= 0)
  /\ Z.of_nat (List.length (_generate_itinerary ul prompt days destination budget))
     = Z.max 0 days.
Proof.
  assert (L := generate_length ul prompt days destination budget).
  split; [|lia]. split.
  - intros E. rewrite E in L. simpl in L. lia.
  - intros Hd. apply length_zero_iff_nil. lia.
Qed.

(** X16: the plans of one itinerary differ in day number and theme only:
    morning, afternoon and evening are the same text on every day, the day
    numbers are pairwise distinct, and two plans with the same theme are the
    same plan. *)
Theorem day_plans_differ_in_day_and_theme_only
        (ul : str -> str) (prompt : str) (days : Z)
        (destination budget : option str) :
  let itinerary := _generate_itinerary ul prompt days destination budget in
  NoDup (map day itinerary)
  /\ forall p q, In p itinerary -> In q itinerary ->
       morning p = morning q /\ afternoon p = afternoon q
       /\ evening p = evening q
       /\ (theme p = theme q -> p = q).
Proof.
  intros itinerary. subst itinerary. split.
  - unfold _generate_itinerary. cbv zeta. rewrite map_map. cbn [day_plan day].
    rewrite map_id. unfold range.
    apply Injective_map_NoDup; [intros a b; lia | apply seq_NoDup].
  - intros p q Hp Hq. apply generate_In in Hp, Hq.
    destruct Hp as (d1 & _ & ->), Hq as (d2 & _ & ->).
    do 3 (split; [reflexivity |]).
    unfold day_plan; cbn [theme]. intros E.
    apply app_inv_head in E. apply app_inv_tail in E.
    apply of_int_inj in E. now subst.
Qed.

(** ** Titles *)

(** X17: every trip [create_trip] returns has a non-empty title: the
    request's title when that is given and not empty, else the destination
    -- or ["Custom Trip"] -- followed by the day count. *)
Theorem created_trip_title
        (ul : str -> str) (req : TripCreateRequest)
        (authorization : option str) (db : option Database)
        (now1 now2 : datetime) (oid : ObjectId)
        (t : Trip.t) (db' : option Database) :
  create_trip ul req authorization db now1 now2 oid = (inr t, db') ->
  Trip.title t <> []
  /\ (forall s, req_title req = Some s -> s <> [] -> Trip.title t = s)
  /\ (req_title req = None \/ req_title req = Some [] ->
      Trip.title t =
        or_else (req_destination req) (lit "Custom Trip")
        ++ lit " " ++ bullet ++ lit " " ++ of_int (req_days req) ++ lit " days").
Proof.
  intros H. apply create_trip_returns in H.
  destruct H as (d & u & _ & _ & -> & _). cbn [Trip.title].
  set (derived := or_else (req_destination req) _ ++ _).
  assert (Hd : derived <> []).
  { subst derived. intros E. apply (f_equal (@List.length char)) in E.
    rewrite !length_app in E. cbn in E. lia. }
  split; [|split].
  - destruct (req_title req) as [[|c s]|]; cbn; auto. discriminate.
  - intros s -> Hs. now apply or_else_nonempty.
  - intros [-> | ->]; reflexivity.
Qed.

Lemma created_trip_title_witness :
  Trip.title sample_trip <> []
  /\ (forall s, req_title sample_request = Some s -> s <> [] ->
                Trip.title sample_trip = s)
  /\ (req_title sample_request = None \/ req_title sample_request = Some [] ->
      Trip.title sample_trip =
        or_else (req_destination sample_request) (lit "Custom Trip")
        ++ lit " " ++ bullet ++ lit " " ++ of_int (req_days sample_request)
        ++ lit " days").
Proof.
  apply (created_trip_title (fun s => s) sample_request sample_authorization
           sample_db 2000 2001 sample_oid sample_trip
           (Some (mkDatabase [sample_user] [store_trip sample_trip]))).
  vm_compute. reflexivity.
Defined.

(** ** White space around the token *)

Lemma lstrip_head_not_space (s : str) :
  match lstrip s with [] => True | c :: _ => isspace c = false end.
Proof.
  induction s as [|c s IH]; simpl; [exact I |].
  destruct (isspace c) eqn:E; [exact IH | exact E].
Qed.

Lemma lstrip_suffix (s : str) : exists pre, s = pre ++ lstrip s.
Proof.
  induction s as [|c s [pre IH]]; simpl; [now exists [] |].
  destruct (isspace c); [|now exists []].
  exists (c :: pre). simpl. now f_equal.
Qed.

Lemma rstrip_prefix (s : str) : exists post, s = rstrip s ++ post.
Proof.
  destruct (lstrip_suffix (rev s)) as [pre H]. exists (rev pre).
  unfold rstrip. rewrite <- rev_app_distr, <- H. symmetry. apply rev_involutive.
Qed.

(** X18: the token looked up never begins and never ends with a white-space
    character, whatever the header. *)
Theorem bearer_token_has_no_outer_space (authorization : option str) :
  match bearer_token authorization with
  | [] => True
  | c :: _ => isspace c = false
  end
  /\ match rev (bearer_token authorization) with
     | [] => True
     | c :: _ => isspace c = false
     end.
Proof.
  unfold bearer_token.
  set (s := remove_all _ _). unfold strip. split.
  - destruct (rstrip_prefix (lstrip s)) as [post H].
    pose proof (lstrip_head_not_space s) as Hh.
    destruct (rstrip (lstrip s)) as [|c r]; [exact I |].
    rewrite H in Hh. exact Hh.
  - unfold rstrip. rewrite rev_involutive. apply lstrip_head_not_space.
Qed.

(** ** Diagnostics *)

Lemma env_truthy_iff (v : option str) :
  env_truthy v = true <-> exists s, v = Some s /\ s <> [].
Proof.
  destruct v as [[|c s]|]; simpl.
  - split; [discriminate | intros (s' & [= <-] & H); congruence].
  - split; [intros _; eexists; split; [reflexivity | discriminate] | reflexivity].
  - split; [discriminate | intros (s' & H & _); discriminate H].
Qed.

(** X19: [test_database] reports at most ten collections, the first ones of
    the store's list; it reports ["Connected"] exactly when a store is
    configured -- also when listing the collections raised, in which case
    the database entry is the warning with at most 80 characters of the
    exception's text and no collection is reported. *)
Theorem test_database_report
        (db : option Listing) (DATABASE_URL DATABASE_NAME : option str) :
  let r := test_database db DATABASE_URL DATABASE_NAME in
  (List.length (diag_collections r) <= 10)%nat
  /\ (forall names, db = Some (Names names) ->
        diag_collections r = firstn 10 names
        /\ exists rest, names = diag_collections r ++ rest)
  /\ (diag_connection_status r = lit "Connected" <-> db <> None)
  /\ (forall e, db = Some (Raises e) ->
        diag_collections r = []
        /\ diag_database r = warning_sign ++ lit " Error: " ++ slice_to 80 e
        /\ len (diag_database r) <= 90)
  /\ (db = None ->
      diag_database r = cross_mark ++ lit " Not Available"
      /\ diag_connection_status r = lit "Not Connected")
  /\ (diag_database_url r = check_mark ++ lit " Set" <->
      exists s, DATABASE_URL = Some s /\ s <> []).
Proof.
  intros r. subst r. split; [|split; [|split; [|split; [|split]]]].
  - destruct db as [[names | e]|]; cbn [test_database diag_collections];
      [rewrite length_firstn; lia | simpl; lia | simpl; lia].
  - intros names ->. cbn [test_database diag_collections].
    split; [reflexivity |]. exists (skipn 10 names). symmetry. apply firstn_skipn.
  - destruct db as [[names | e]|]; cbn [test_database diag_connection_status];
      split; try discriminate; try reflexivity; congruence.
  - intros e ->. cbn [test_database diag_collections diag_database].
    split; [reflexivity |]. split; [reflexivity |].
    unfold len, slice_to. rewrite !length_app, length_firstn.
    change (List.length warning_sign) with 2%nat.
    change (List.length (lit " Error: ")) with 8%nat. lia.
  - intros ->. split; reflexivity.
  - assert (E : diag_database_url (test_database db DATABASE_URL DATABASE_NAME)
                 = if env_truthy DATABASE_URL
                   then check_mark ++ lit " Set" else cross_mark ++ lit " Not Set")
      by (destruct db as [[names | e]|]; reflexivity).
    rewrite E, <- env_truthy_iff.
    destruct (env_truthy DATABASE_URL); split; try reflexivity; discriminate.
Qed.

(** ** Concrete runs of registration, login and listing *)

Example register_carol_run :
  register (fun s => s) carol_request sample_db carol_salt carol_token
    carol_oid 3000 3001
  = (inr (mkAuthResponse carol_token (lit "Carol") (lit "c@x.com")),
     Some carol_db).
Proof. reflexivity. Qed.

Example create_in_two_user_db_run :
  create_trip (fun s => s) sample_request sample_authorization
    (Some two_user_db) 5123 5999 sample_oid
  = (inr late_trip, two_user_db_after)
  /\ list_trips sample_authorization two_user_db_after
     = inr [store_trip late_trip; T4; T3; T1]
  /\ Trip.created_at late_trip = 5123
  /\ Trip.created_at (store_trip late_trip) = 5000.
Proof. repeat split; vm_compute; reflexivity. Qed.

(** A password that cannot be encoded: [login] answers 500 for the email of
    a stored user and 401 for an unknown one, [register] answers 500 and
    stores nothing. *)
Example unencodable_password_run (sha : str -> str) :
  login sha (mkLoginRequest (lit "a@x.com") [55296%N]) sample_db login_token 0
  = (inl internal_server_error, sample_db)
  /\ login sha (mkLoginRequest (lit "z@x.com") [55296%N]) sample_db login_token 0
     = (inl invalid_credentials, sample_db)
  /\ register sha (mkRegisterRequest (lit "Zed") (lit "z@x.com") [57343%N])
       sample_db carol_salt carol_token carol_oid 0 0
     = (inl internal_server_error, sample_db).
Proof. repeat split. Qed.

Lemma register_keeps_emails_unique_witness :
  exists d' added,
    snd (register (fun s => s) carol_request
           (Some (mkDatabase [sample_user] [])) carol_salt carol_token
           carol_oid 3000 3001) = Some d'
    /\ user d' = user (mkDatabase [sample_user] []) ++ added
    /\ (List.length added <= 1)%nat
    /\ trip d' = trip (mkDatabase [sample_user] [])
    /\ NoDup (map User.email (user d')).
Proof.
  apply (register_keeps_emails_unique (fun s => s) carol_request
           (mkDatabase [sample_user] []) carol_salt carol_token carol_oid
           3000 3001).
  repeat constructor. intros [].
Defined.

Lemma register_twice_is_refused_witness :
  register (fun s => s)
    (mkRegisterRequest (lit "Mallory") (lit "c@x.com") (lit "hunter2"))
    (Some carol_db) carol_salt login_token sample_oid 3500 3501
  = (inl already_registered, Some carol_db)
  /\ status_code already_registered = 400.
Proof.
  apply (register_twice_is_refused (fun s => s) carol_request
           (mkRegisterRequest (lit "Mallory") (lit "c@x.com") (lit "hunter2"))
           sample_db (Some carol_db) carol_salt carol_salt carol_token
           login_token carol_oid sample_oid 3000 3001 3500 3501
           (mkAuthResponse carol_token (lit "Carol") (lit "c@x.com")));
    reflexivity.
Defined.

Lemma register_then_login_succeeds_witness :
  fst (login (fun s => s)
         (mkLoginRequest (reg_email carol_request) (reg_password carol_request))
         (Some carol_db) login_token 4000)
  = inr (mkAuthResponse login_token (reg_name carol_request)
           (reg_email carol_request)).
Proof.
  apply (register_then_login_succeeds (fun s => s) carol_request sample_db
           (Some carol_db) carol_salt carol_token login_token carol_oid
           3000 3001 4000
           (mkAuthResponse carol_token (lit "Carol") (lit "c@x.com"))).
  reflexivity.
Defined.

Lemma registered_token_opens_me_witness :
  me (Some (lit "Bearer "
            ++ auth_token (mkAuthResponse carol_token (lit "Carol")
                             (lit "c@x.com"))))
     (Some carol_db)
  = inr (Some (reg_name carol_request), Some (reg_email carol_request)).
Proof.
  apply (registered_token_opens_me (fun s => s) carol_request
           (mkDatabase [sample_user] []) (Some carol_db) carol_salt
           carol_token carol_oid 3000 3001
           (mkAuthResponse carol_token (lit "Carol") (lit "c@x.com"))).
  - reflexivity.
  - discriminate.
  - reflexivity.
  - intros u [<- | []] [H | []]. discriminate H.
Defined.

Lemma login_keeps_sessions_witness :
  exists u',
    _get_user_by_token
      (snd (login (fun s => s) carol_login (Some carol_db) login_token 4000))
      sample_token = Some u'
    /\ User._id u' = User._id sample_user
    /\ User.name u' = User.name sample_user
    /\ User.email u' = User.email sample_user.
Proof.
  apply (login_keeps_sessions (fun s => s) carol_login (Some carol_db)
           login_token 4000 sample_token sample_user).
  - discriminate.
  - reflexivity.
Defined.

Lemma login_token_opens_me_witness :
  exists name,
    me (Some (lit "Bearer "
              ++ auth_token (mkAuthResponse login_token (lit "Carol")
                               (lit "c@x.com"))))
       (snd (login (fun s => s) carol_login (Some carol_db) login_token 4000))
    = inr (name, Some (login_email carol_login))
    /\ get_or name (lit "")
       = auth_name (mkAuthResponse login_token (lit "Carol") (lit "c@x.com")).
Proof.
  apply (login_token_opens_me (fun s => s) carol_login carol_db
           (snd (login (fun s => s) carol_login (Some carol_db) login_token 4000))
           login_token 4000
           (mkAuthResponse login_token (lit "Carol") (lit "c@x.com"))).
  - reflexivity.
  - repeat constructor; simpl; intuition discriminate.
  - discriminate.
  - reflexivity.
  - intros u [<- | [<- | []]] [H | []]; discriminate H.
Defined.

Lemma blank_header_is_unauthorized_witness :
  let h := [32%N; 9%N; 160%N; 32%N] in
  bearer_token (Some h) = []
  /\ me (Some h) sample_db = inl unauthorized
  /\ list_trips (Some h) sample_db = inl unauthorized
  /\ create_trip (fun s => s) sample_request (Some h) sample_db 2000 2001
       sample_oid
     = (inl unauthorized, sample_db).
Proof.
  intros h.
  apply (blank_header_is_unauthorized (fun s => s) sample_request h
           (mkDatabase [sample_user] []) 2000 2001 sample_oid).
  reflexivity.
Defined.

Lemma create_then_list_witness :
  (exists before after,
      list_trips sample_authorization (Some two_user_db) = inr before
      /\ list_trips sample_authorization two_user_db_after = inr after
      /\ Permutation after (store_trip late_trip :: before)
      /\ In (store_trip late_trip) after)
  /\ (forall (authorization2 : option str) (u2 : User.t),
        _get_user_by_token (Some two_user_db) (bearer_token authorization2)
        = Some u2 ->
        oid_str (User._id u2) <> Trip.user_id late_trip ->
        list_trips authorization2 two_user_db_after
        = list_trips authorization2 (Some two_user_db)).
Proof.
  apply (create_then_list (fun s => s) sample_request sample_authorization
           two_user_db 5123 5999 sample_oid late_trip two_user_db_after).
  vm_compute. reflexivity.
Defined.

Lemma newest_trip_is_listed_first_witness :
  exists before,
    list_trips sample_authorization (Some two_user_db) = inr before
    /\ list_trips sample_authorization two_user_db_after
       = inr (store_trip late_trip :: before).
Proof.
  apply (newest_trip_is_listed_first (fun s => s) sample_request
           sample_authorization two_user_db 5123 5999 sample_oid late_trip
           two_user_db_after).
  - vm_compute. reflexivity.
  - intros x [<- | [<- | [<- | [<- | []]]]] _; reflexivity.
Defined.

Lemma list_trips_reverses_insertion_order_witness :
  list_trips sample_authorization (Some two_user_db)
  = inr (rev (filter (fun t => PyStr.eqb (Trip.user_id t)
                                 (oid_str (User._id sample_user)))
                (trip two_user_db))).
Proof.
  apply (list_trips_reverses_insertion_order sample_authorization two_user_db
           sample_user).
  - reflexivity.
  - vm_compute. repeat constructor.
Defined.

Example sample_tokens_are_token_hex :
  is_token_hex 24 sample_token = true /\ is_token_hex 24 other_token = true
  /\ is_token_hex 24 carol_token = true /\ is_token_hex 24 login_token = true
  /\ is_token_hex 16 carol_salt = true.
Proof. repeat split. Qed.
